(** * try.rs (TryCatcher): the Result type and its capture adapters

    A shallow embedding of [src/result.ts] (the classes [Ok] and [Err]) and
    of the free functions [tryFn], [tryAsync], [ok] and [err].

    TypeScript's type parameters are erased at run time, so the embedding is
    untyped, like the JavaScript that runs: a [Value] is a primitive or a
    reference into a heap of objects, [new] allocates, a caller-supplied
    function is a computation that may allocate, record calls and throw.
    The numeric primitives (IEEE doubles, BigInt) are left out of [Value].

    A string of the model is the JavaScript string with the same
    characters as long as these are ASCII: one character is then one
    UTF-16 code unit, and [String.length] is [.length]. *)

From Stdlib Require Import Ascii String List Bool Arith Lia.
Import ListNotations.
Local Open Scope string_scope.
Local Open Scope list_scope.

(** ** Values and objects *)

Definition loc := nat.

Inductive Value : Type :=
| VUndefined
| VNull
| VBool (b : bool)
| VString (s : string)
| VSymbol (description : option string)
| VObject (l : loc).

(** What an ordinary object answers when it is converted to a string: the
    [toString] it inherits from [Object.prototype], a [toString] of its own
    that returns a string or throws, or none at all ([Object.create(null)]).
    A method of its own is described by its outcome only: what else it may
    do while it runs (call a mock, write to an object) is not modelled. *)
Inductive Conversion : Type :=
| Inherited
| Returns (s : string)
| Raises (x : Value)
| Absent.

(** The objects of the heap: instances of the two classes of [result.ts],
    instances of [Error] (and of its subclasses, told apart by [name]) that
    keep the [toString] of [Error.prototype], and other objects with their
    data properties. The fields of [Ok] and [Err] are [readonly]. *)
Inductive Obj : Type :=
| Ok (value : Value)
| Err (error : Value)
| Error (name message : string)
| Plain (fields : list (string * Value)) (conv : Conversion).

(** A call noted by a [mock] function (bun:test's [mock], used by the tests). *)
Inductive Call : Type :=
| Invoked (name : string) (argument : Value).

Record World : Type := mkWorld {
  heap : list Obj;
  journal : list Call
}.

Definition empty_world : World := {| heap := []; journal := [] |}.

(** A location past the end of the heap reads as an empty object literal;
    no operation below produces such a reference. *)
Definition deref (w : World) (v : Value) : option Obj :=
  match v with
  | VObject l => Some (nth l (heap w) (Plain [] Inherited))
  | _ => None
  end.

(** ** Computations: state and exceptions *)

Inductive Completion (A : Type) : Type :=
| Normal (a : A)
| Throw (x : Value).
Arguments Normal {A} a.
Arguments Throw {A} x.

Definition Comp (A : Type) : Type := World -> Completion A * World.

Definition ret {A} (a : A) : Comp A := fun w => (Normal a, w).

Definition throw {A} (x : Value) : Comp A := fun w => (Throw x, w).

Definition bind {A B} (c : Comp A) (k : A -> Comp B) : Comp B :=
  fun w =>
    match c w with
    | (Normal a, w') => k a w'
    | (Throw x, w') => (Throw x, w')
    end.

Declare Scope js_scope.
Delimit Scope js_scope with js.
Notation "x <- c ;; k" := (bind c (fun x => k))
  (at level 100, c at next level, right associativity) : js_scope.
Local Open Scope js_scope.

(** [try { body } catch (error) { handler }] *)
Definition try_catch {A} (body : Comp A) (handler : Value -> Comp A) : Comp A :=
  fun w =>
    match body w with
    | (Normal a, w') => (Normal a, w')
    | (Throw x, w') => handler x w'
    end.

(** A function of one argument, and a function of none. *)
Definition Fn : Type := Value -> Comp Value.
Definition Thunk : Type := Comp Value.

(** [new C(...)]: the object goes to the next free location. *)
Definition alloc (w : World) (o : Obj) : World :=
  {| heap := heap w ++ [o]; journal := journal w |}.

Definition new (o : Obj) : Comp Value :=
  fun w => (Normal (VObject (length (heap w))), alloc w o).

(** bun:test's [mock(f)]: notes the call, then runs [f]. *)
Definition note (w : World) (c : Call) : World :=
  {| heap := heap w; journal := journal w ++ [c] |}.

Definition mock (name : string) (f : Fn) : Fn :=
  fun x w => f x (note w (Invoked name x)).

(** ** String conversion (ECMAScript ToString, [String(x)], [instanceof]) *)

(** The texts of the engine's own TypeErrors (V8's wording; other engines
    word them differently). *)
Definition symbol_message : string := "Cannot convert a Symbol value to a string".
Definition primitive_message : string := "Cannot convert object to primitive value".
Definition callable_message : string := "not a function".

Definition throw_TypeError {A} (message : string) : Comp A :=
  x <- new (Error "TypeError" message) ;; throw x.

(** [Error.prototype.toString] *)
Definition Error_toString (name message : string) : string :=
  if (name =? "")%string then message
  else if (message =? "")%string then name
  else (name ++ ": " ++ message)%string.

(** The object has a data property of this name. *)
Fixpoint has_field (name : string) (fields : list (string * Value)) : bool :=
  match fields with
  | [] => false
  | (key, _) :: rest => (key =? name)%string || has_field name rest
  end.

(** ToPrimitive with hint string, followed by ToString of the primitive.
    A data property named [toString] hides the inherited method; it holds a
    [Value], which is not callable, and [valueOf] (inherited, or hidden in
    the same way) gives no primitive, so that the conversion is refused. *)
Definition Object_toString (o : Obj) : Comp string :=
  match o with
  | Ok _ => ret "[object Object]"
  | Err _ => ret "[object Object]"
  | Error name message => ret (Error_toString name message)
  | Plain fields Inherited =>
      if has_field "toString" fields then throw_TypeError primitive_message
      else ret "[object Object]"
  | Plain _ (Returns s) => ret s
  | Plain _ (Raises x) => throw x
  | Plain _ Absent => throw_TypeError primitive_message
  end.

(** The abstract operation ToString, as a template literal applies it. *)
Definition ToString (v : Value) : Comp string :=
  fun w =>
    match v with
    | VUndefined => ret "undefined" w
    | VNull => ret "null" w
    | VBool true => ret "true" w
    | VBool false => ret "false" w
    | VString s => ret s w
    | VSymbol _ => throw_TypeError symbol_message w
    | VObject l => Object_toString (nth l (heap w) (Plain [] Inherited)) w
    end.

(** [String(x)]: as ToString, but a symbol is described instead of refused. *)
Definition String_ (v : Value) : Comp string :=
  match v with
  | VSymbol None => ret "Symbol()"
  | VSymbol (Some d) => ret ("Symbol(" ++ d ++ ")")%string
  | _ => ToString v
  end.

(** [x instanceof Error] *)
Definition instanceof_Error (x : Value) : Comp bool :=
  fun w =>
    match deref w x with
    | Some (Error _ _) => ret true w
    | _ => ret false w
    end.

(** ** class Ok (result.ts, lines 9-90); [value] is [this.value] *)

Module Options.
(** The argument of [match]: [{ ok: ..., err: ... }]. *)
Record t : Type := make { ok : Fn; err : Fn }.
End Options.

Definition Ok_isOk (value : Value) : Comp Value := ret (VBool true).

Definition Ok_isErr (value : Value) : Comp Value := ret (VBool false).

Definition Ok_unwrap (value : Value) : Comp Value := ret value.

Definition Ok_unwrapOr (value : Value) (defaultValue : Value) : Comp Value :=
  ret value.

Definition Ok_map (value : Value) (fn : Fn) : Comp Value :=
  u <- fn value ;; new (Ok u).

Definition Ok_mapErr (value : Value) (fn : Fn) : Comp Value :=
  new (Ok value).

Definition Ok_mapOr (value : Value) (defaultValue : Value) (fn : Fn) : Comp Value :=
  fn value.

Definition Ok_andThen (value : Value) (fn : Fn) : Comp Value :=
  fn value.

Definition Ok_or (value : Value) (res : Value) : Comp Value :=
  new (Ok value).

Definition Ok_unwrapOrElse (value : Value) (fn : Fn) : Comp Value :=
  ret value.

Definition Ok_match (value : Value) (options : Options.t) : Comp Value :=
  Options.ok options value.

(** ** class Err (result.ts, lines 95-176); [error] is [this.error] *)

Definition Err_isOk (error : Value) : Comp Value := ret (VBool false).

Definition Err_isErr (error : Value) : Comp Value := ret (VBool true).

Definition Err_unwrap (error : Value) : Comp Value :=
  s <- ToString error ;;
  x <- new (Error "Error" ("Tried to unwrap an Err: " ++ s)%string) ;;
  throw x.

Definition Err_unwrapOr (error : Value) (defaultValue : Value) : Comp Value :=
  ret defaultValue.

Definition Err_map (error : Value) (fn : Fn) : Comp Value :=
  new (Err error).

Definition Err_mapErr (error : Value) (fn : Fn) : Comp Value :=
  f <- fn error ;; new (Err f).

Definition Err_mapOr (error : Value) (defaultValue : Value) (fn : Fn) : Comp Value :=
  ret defaultValue.

Definition Err_andThen (error : Value) (fn : Fn) : Comp Value :=
  new (Err error).

Definition Err_or (error : Value) (res : Value) : Comp Value :=
  ret res.

Definition Err_unwrapOrElse (error : Value) (fn : Fn) : Comp Value :=
  fn error.

Definition Err_match (error : Value) (options : Options.t) : Comp Value :=
  Options.err options error.

(** ** type Result = Ok | Err: a method call on a reference

    [r.m(...)] runs the method of the class of the object [r] refers to; on
    anything else the property is missing and the call is a TypeError. *)

Definition method {A} (r : Value) (ifOk ifErr : Value -> Comp A) : Comp A :=
  fun w =>
    match deref w r with
    | Some (Ok value) => ifOk value w
    | Some (Err error) => ifErr error w
    | _ => throw_TypeError callable_message w
    end.

Module Result.
Definition isOk (r : Value) : Comp Value := method r Ok_isOk Err_isOk.
Definition isErr (r : Value) : Comp Value := method r Ok_isErr Err_isErr.
Definition unwrap (r : Value) : Comp Value := method r Ok_unwrap Err_unwrap.
Definition unwrapOr (r defaultValue : Value) : Comp Value :=
  method r (fun value => Ok_unwrapOr value defaultValue)
           (fun error => Err_unwrapOr error defaultValue).
Definition map (r : Value) (fn : Fn) : Comp Value :=
  method r (fun value => Ok_map value fn) (fun error => Err_map error fn).
Definition mapErr (r : Value) (fn : Fn) : Comp Value :=
  method r (fun value => Ok_mapErr value fn) (fun error => Err_mapErr error fn).
Definition mapOr (r defaultValue : Value) (fn : Fn) : Comp Value :=
  method r (fun value => Ok_mapOr value defaultValue fn)
           (fun error => Err_mapOr error defaultValue fn).
Definition andThen (r : Value) (fn : Fn) : Comp Value :=
  method r (fun value => Ok_andThen value fn) (fun error => Err_andThen error fn).
Definition or (r res : Value) : Comp Value :=
  method r (fun value => Ok_or value res) (fun error => Err_or error res).
Definition unwrapOrElse (r : Value) (fn : Fn) : Comp Value :=
  method r (fun value => Ok_unwrapOrElse value fn)
           (fun error => Err_unwrapOrElse error fn).
Definition match_ (r : Value) (options : Options.t) : Comp Value :=
  method r (fun value => Ok_match value options)
           (fun error => Err_match error options).
End Result.

(** ** The free functions (the module that imports [./result]) *)

(** The [catch] clause shared, word for word, by [tryFn] and [tryAsync]:
    [new Err(error instanceof Error ? error : new Error(String(error)))]. *)
Definition catch_clause (error : Value) : Comp Value :=
  is_error <- instanceof_Error error ;;
  payload <- (if is_error : bool then ret error
              else s <- String_ error ;; new (Error "Error" s)) ;;
  new (Err payload).

Definition tryFn (fn : Thunk) : Comp Value :=
  try_catch (t <- fn ;; new (Ok t)) catch_clause.

(** A promise is represented by its settlement; the schedule of the event
    loop is not modelled. [Pending] is a promise that never settles. A
    [Value] is never a promise or a thenable: the Results that [tryAsync]
    hands to [async] are none. *)
Inductive Promise : Type :=
| Pending
| Fulfilled (v : Value)
| Rejected (x : Value).

(** The body of an [async] function up to its end: the promise it returned
    is fulfilled with the body's value or rejected with what it threw. (A
    body that returns a promise would have it adopted instead; no [Value]
    is one.) *)
Definition async (body : Comp Value) : Comp Promise :=
  fun w =>
    match body w with
    | (Normal v, w') => (Normal (Fulfilled v), w')
    | (Throw x, w') => (Normal (Rejected x), w')
    end.

(** [await operand], followed by the rest of the [async] body: the rest
    resumes with the fulfilment value, or with the rejection (or with what
    evaluating the operand threw) raised at the [await]; it never resumes
    when the operand stays pending. *)
Definition await (operand : Comp Promise) (rest : Comp Value -> Comp Promise)
  : Comp Promise :=
  fun w =>
    match operand w with
    | (Normal Pending, w') => (Normal Pending, w')
    | (Normal (Fulfilled v), w') => rest (ret v) w'
    | (Normal (Rejected x), w') => rest (throw x) w'
    | (Throw x, w') => rest (throw x) w'
    end.

Definition tryAsync (fn : Comp Promise) : Comp Promise :=
  await fn (fun awaited =>
    async (try_catch (value <- awaited ;; new (Ok value)) catch_clause)).

Definition ok (value : Value) : Comp Value := new (Ok value).

Definition err (error : Value) : Comp Value := new (Err error).

(** ** Functions of the test suite (the "Practical examples") *)

(** [fs.readFile] of the "File operations" tests, before it is mocked. *)
Definition readFile (path : string) : Thunk :=
  if (path =? "exists.txt")%string then ret (VString "file contents")
  else x <- new (Error "Error" "File not found") ;; throw x.

(** [err<string, ValidationError>({ field, message })] *)
Definition validation_error (field message : string) : Comp Value :=
  e <- new (Plain [("field", VString field); ("message", VString message)]
                  Inherited) ;;
  err e.

Definition validateUsername (username : string) : Comp Value :=
  if (username =? "")%string then
    validation_error "username" "Username is required"
  else if (String.length username <? 3)%nat then
    validation_error "username" "Username must be at least 3 characters"
  else ok (VString username).

Definition validateEmail (email : string) : Comp Value :=
  if (email =? "")%string then validation_error "email" "Email is required"
  else match index 0 "@" email with
       | None => validation_error "email" "Invalid email format"
       | Some _ => ok (VString email)
       end.

Definition validateUser (username email : string) : Comp Value :=
  r <- validateUsername username ;;
  Result.andThen r (fun validUsername =>
    r' <- validateEmail email ;;
    Result.map r' (fun validEmail =>
      new (Plain [("username", validUsername); ("email", validEmail)]
                 Inherited))).

(** The body of [fetchData]'s argument, the response already received;
    [json] is what the promise of [response.json()], which the function
    returns and so adopts, is fulfilled with. *)
Definition fetched (response_ok : bool) (status : string) (json : Value)
  : Comp Promise :=
  async (if response_ok then ret json
         else x <- new (Error "Error" ("HTTP error: " ++ status)%string) ;;
              throw x).

(** ** Vocabulary of the statements *)

(** [r] refers to the allocated object [o]. *)
Definition holds (w : World) (r : Value) (o : Obj) : Prop :=
  match r with
  | VObject l => nth_error (heap w) l = Some o
  | _ => False
  end.

(** [r] is a Result: an instance of one of the two classes. *)
Definition is_result (w : World) (r : Value) : Prop :=
  exists p, holds w r (Ok p) \/ holds w r (Err p).

(** [r] was not allocated yet in [w]. *)
Definition unallocated (w : World) (r : Value) : Prop :=
  match r with
  | VObject l => length (heap w) <= l
  | _ => False
  end.

(** The heap of [w'] is the heap of [w] with more objects after it:
    nothing was overwritten or removed. *)
Definition later (w w' : World) : Prop :=
  exists more, heap w' = heap w ++ more.

(** The computation completes normally. *)
Definition normal {A} (c : Comp A) (w : World) : Prop :=
  exists a w', c w = (Normal a, w').

(** A caller's function that returns normally on every argument. *)
Definition total (f : Fn) : Prop := forall x w, normal (f x) w.

(** A computation that leaves every object in place: it allocates at most. *)
Definition allocating {A} (c : Comp A) : Prop :=
  forall w, later w (snd (c w)).

(** A caller's function that allocates at most, and one that leaves the
    journal of the mocks alone. *)
Definition grows (f : Fn) : Prop := forall x, allocating (f x).
Definition quiet (f : Fn) : Prop :=
  forall x w, journal (snd (f x w)) = journal w.

(** [s] occurs in [m]. *)
Definition occurs_in (s m : string) : Prop :=
  exists before after, m = (before ++ s ++ after)%string.

(** The calls of the mock [name] noted in a journal. *)
Fixpoint calls_of (name : string) (j : list Call) : list Value :=
  match j with
  | [] => []
  | Invoked n x :: j' =>
      if (n =? name)%string then x :: calls_of name j' else calls_of name j'
  end.

(** A chain [r.andThen(f1).andThen(f2)...]. *)
Fixpoint chain (r : Value) (fs : list Fn) : Comp Value :=
  match fs with
  | [] => ret r
  | f :: fs' => r' <- Result.andThen r f ;; chain r' fs'
  end.

(** A method of Result, given a receiver, a value, a function and a pair of
    handlers (each method uses the arguments it has). *)
Definition Method : Type := Value -> Value -> Fn -> Options.t -> Comp Value.

Definition transformers : list Method :=
  [ (fun r _ fn _ => Result.map r fn);
    (fun r _ fn _ => Result.mapErr r fn);
    (fun r _ fn _ => Result.andThen r fn);
    (fun r res _ _ => Result.or r res) ].

(** The methods other than [unwrap]. *)
Definition other_methods : list Method :=
  [ (fun r _ _ _ => Result.isOk r);
    (fun r _ _ _ => Result.isErr r);
    (fun r d _ _ => Result.unwrapOr r d);
    (fun r d fn _ => Result.mapOr r d fn);
    (fun r _ fn _ => Result.unwrapOrElse r fn);
    (fun r _ _ options => Result.match_ r options) ] ++ transformers.

Definition all_methods : list Method :=
  (fun r _ _ _ => Result.unwrap r) :: other_methods.

(** The method writes to no object: with functions that allocate at most,
    it allocates at most. *)
Definition only_allocates (m : Method) : Prop :=
  forall r d fn options,
    grows fn -> grows (Options.ok options) -> grows (Options.err options) ->
    allocating (m r d fn options).

(** The method has no failure of its own: on a Result, with functions that
    return normally, it returns normally. *)
Definition raises_nothing_of_its_own (m : Method) : Prop :=
  forall w r d fn options,
    is_result w r -> total fn ->
    total (Options.ok options) -> total (Options.err options) ->
    normal (m r d fn options) w.

(** What produces a Result.

    The constructors, the synchronous capture adapter and the four
    transformers, the latter called on a Result. [andThen] hands back what
    the continuation returns and [or] its argument, so they produce a Result
    when, as their types say, the continuation returns one and the
    alternative is one. *)
Inductive produces (w : World) : Comp Value -> Prop :=
| by_ok v : produces w (ok v)
| by_err e : produces w (err e)
| by_tryFn fn : produces w (tryFn fn)
| by_map r fn : is_result w r -> produces w (Result.map r fn)
| by_mapErr r fn : is_result w r -> produces w (Result.mapErr r fn)
| by_andThen r fn :
    is_result w r ->
    (forall v w1 y w2, fn v w1 = (Normal y, w2) -> is_result w2 y) ->
    produces w (Result.andThen r fn)
| by_or r res :
    is_result w r -> is_result w res -> produces w (Result.or r res).

(** ** More of the test suite, and vocabulary for the laws *)

(** [fs.writeFile] of the "File operations" tests. *)
Definition writeFile (path : string) (data : Value) : Thunk :=
  if (path =? "readonly.txt")%string then
    x <- new (Error "Error" "Permission denied") ;; throw x
  else ret (VBool true).

(** [content => content.toUpperCase()]; the case mapping of the engine is
    a parameter. *)
Definition upper (toUpperCase : string -> string) : Fn :=
  fun content =>
    match content with
    | VString s => ret (VString (toUpperCase s))
    | _ => throw_TypeError callable_message
    end.

(** [processFile] of the test "should chain file operations". *)
Definition processFile (toUpperCase : string -> string) (path : string)
  : Comp Value :=
  r <- tryFn (readFile path) ;;
  r' <- Result.map r (upper toUpperCase) ;;
  Result.andThen r' (fun processed => tryFn (writeFile "output.txt" processed)).

(** The characters of the string are ASCII: the strings for which the
    model's [String.length] is JavaScript's [.length]. *)
Fixpoint ascii_only (s : string) : bool :=
  match s with
  | EmptyString => true
  | String c rest => (nat_of_ascii c <? 128)%nat && ascii_only rest
  end.

(** [email.includes("@")] *)
Definition includes_at (email : string) : bool :=
  match index 0 "@" email with
  | Some _ => true
  | None => false
  end.

(** A function without effects. *)
Definition pure (h : Value -> Value) : Fn := fun x => ret (h x).

(** The computation returns a reference to an object equal to [o], and
    notes no call. *)
Definition yields (c : Comp Value) (w : World) (o : Obj) : Prop :=
  exists r w', c w = (Normal r, w') /\ holds w' r o /\ journal w' = journal w.

(** A computation that leaves the journal of the mocks alone. *)
Definition silent {A} (c : Comp A) : Prop :=
  forall w, journal (snd (c w)) = journal w.

(** The method calls nothing but the functions it is handed. *)
Definition calls_nothing_else (m : Method) : Prop :=
  forall r d fn options,
    quiet fn -> quiet (Options.ok options) -> quiet (Options.err options) ->
    silent (m r d fn options).

(** [r.or(a1).or(a2)...] *)
Fixpoint or_chain (r : Value) (alternatives : list Value) : Comp Value :=
  match alternatives with
  | [] => ret r
  | res :: rest => r' <- Result.or r res ;; or_chain r' rest
  end.

(** The references of a list are all failures. *)
Definition all_failures (w : World) (rs : list Value) : Prop :=
  Forall (fun r => exists e, holds w r (Err e)) rs.

(** The value has no conversion method of its own: it is a primitive, an
    instance of [Ok], [Err] or [Error], or an object that inherits or lacks
    [toString], so that converting it to a string runs the engine's code
    only. *)
Definition converts_by_engine (w : World) (x : Value) : Prop :=
  forall fields conv,
    holds w x (Plain fields conv) -> conv = Inherited \/ conv = Absent.

(** What the function throws, and what the promise is rejected with, has no
    conversion method of its own. *)
Definition throws_plainly (fn : Thunk) : Prop :=
  forall w x w1, fn w = (Throw x, w1) -> converts_by_engine w1 x.

Definition rejects_plainly (fn : Comp Promise) : Prop :=
  forall w x w1,
    fn w = (Throw x, w1) \/ fn w = (Normal (Rejected x), w1) ->
    converts_by_engine w1 x.

(** The computation keeps the relation [R] between the state it starts in
    and the state it ends in. *)
Definition keeps (R : World -> World -> Prop) {A} (c : Comp A) : Prop :=
  forall w, R w (snd (c w)).

(** * Basic facts: the heap, the dispatch *)

Lemma later_refl w : later w w.
Proof. exists []. now rewrite app_nil_r. Qed.

Lemma later_trans w1 w2 w3 : later w1 w2 -> later w2 w3 -> later w1 w3.
Proof.
  intros [m1 H1] [m2 H2]. exists (m1 ++ m2).
  now rewrite H2, H1, app_assoc.
Qed.

Lemma later_alloc w o : later w (alloc w o).
Proof. now exists [o]. Qed.

Lemma later_note w c : later w (note w c).
Proof. exists []. simpl. now rewrite app_nil_r. Qed.

Lemma later_length w w' : later w w' -> length (heap w) <= length (heap w').
Proof. intros [m H]. rewrite H, length_app. lia. Qed.

(** An object stays what it is for as long as the heap only grows. *)
Lemma holds_later w w' r o : holds w r o -> later w w' -> holds w' r o.
Proof.
  destruct r; simpl; try contradiction.
  intros H [m Hm]. rewrite Hm.
  rewrite nth_error_app1; [assumption|].
  apply nth_error_Some. congruence.
Qed.

Lemma holds_new w o : holds (alloc w o) (VObject (length (heap w))) o.
Proof.
  simpl. rewrite nth_error_app2 by lia.
  now rewrite Nat.sub_diag.
Qed.


Lemma holds_deref w r o : holds w r o -> deref w r = Some o.
Proof.
  destruct r; simpl; try contradiction.
  intros H. f_equal. now apply nth_error_nth.
Qed.

Lemma method_Ok {A} w r v (ifOk ifErr : Value -> Comp A) :
  holds w r (Ok v) -> method r ifOk ifErr w = ifOk v w.
Proof. intros H. unfold method. now rewrite (holds_deref _ _ _ H). Qed.

Lemma method_Err {A} w r e (ifOk ifErr : Value -> Comp A) :
  holds w r (Err e) -> method r ifOk ifErr w = ifErr e w.
Proof. intros H. unfold method. now rewrite (holds_deref _ _ _ H). Qed.

(** [success(v).m(...)] and [failure(e).m(...)]: the constructor, then the
    method on what it returned. *)
Lemma ok_then {A} v (ifOk ifErr : Value -> Comp A) w :
  (r <- ok v ;; method r ifOk ifErr) w = ifOk v (alloc w (Ok v)).
Proof. unfold bind, ok, new. apply method_Ok, holds_new. Qed.

Lemma err_then {A} e (ifOk ifErr : Value -> Comp A) w :
  (r <- err e ;; method r ifOk ifErr) w = ifErr e (alloc w (Err e)).
Proof. unfold bind, err, new. apply method_Err, holds_new. Qed.

Lemma bind_normal {A B} (c : Comp A) (k : A -> Comp B) w b w' :
  bind c k w = (Normal b, w') ->
  exists a w1, c w = (Normal a, w1) /\ k a w1 = (Normal b, w').
Proof.
  unfold bind. destruct (c w) as [[a|x] w1]; intros H.
  - now exists a, w1.
  - discriminate.
Qed.

Lemma new_normal o w r w' :
  new o w = (Normal r, w') -> r = VObject (length (heap w)) /\ w' = alloc w o.
Proof. unfold new. intros H. now inversion H. Qed.

Lemma new_is_Ok v w r w' : new (Ok v) w = (Normal r, w') -> holds w' r (Ok v).
Proof. intros H. apply new_normal in H as [-> ->]. apply holds_new. Qed.

Lemma new_is_Err e w r w' : new (Err e) w = (Normal r, w') -> holds w' r (Err e).
Proof. intros H. apply new_normal in H as [-> ->]. apply holds_new. Qed.

Lemma is_result_Ok w r v : holds w r (Ok v) -> is_result w r.
Proof. intros H. exists v. now left. Qed.

Lemma is_result_Err w r e : holds w r (Err e) -> is_result w r.
Proof. intros H. exists e. now right. Qed.

Create HintDb result.
#[local] Hint Resolve is_result_Ok is_result_Err new_is_Ok new_is_Err : result.

Lemma catch_clause_is_result x w r w' :
  catch_clause x w = (Normal r, w') -> is_result w' r.
Proof.
  unfold catch_clause. intros H.
  apply bind_normal in H as (b & w1 & _ & H).
  apply bind_normal in H as (p & w2 & _ & H).
  eauto with result.
Qed.

Lemma tryFn_is_result fn w r w' :
  tryFn fn w = (Normal r, w') -> is_result w' r.
Proof.
  unfold tryFn, try_catch.
  destruct (bind fn _ w) as [[a|x] w1] eqn:E; intros H.
  - inversion H; subst.
    apply bind_normal in E as (t & w2 & _ & E). eauto with result.
  - now apply catch_clause_is_result in H.
Qed.

Lemma produces_is_result w c r w' :
  produces w c -> c w = (Normal r, w') -> is_result w' r.
Proof.
  intros P H. destruct P as [v|e|fn|r0 fn R|r0 fn R|r0 fn R F|r0 res R R'].
  - eauto with result.
  - eauto with result.
  - now apply tryFn_is_result in H.
  - destruct R as [p [R|R]]; unfold Result.map in H.
    + rewrite (method_Ok _ _ _ _ _ R) in H. unfold Ok_map in H.
      apply bind_normal in H as (u & w1 & _ & H). eauto with result.
    + rewrite (method_Err _ _ _ _ _ R) in H. eauto with result.
  - destruct R as [p [R|R]]; unfold Result.mapErr in H.
    + rewrite (method_Ok _ _ _ _ _ R) in H. eauto with result.
    + rewrite (method_Err _ _ _ _ _ R) in H. unfold Err_mapErr in H.
      apply bind_normal in H as (u & w1 & _ & H). eauto with result.
  - destruct R as [p [R|R]]; unfold Result.andThen in H.
    + rewrite (method_Ok _ _ _ _ _ R) in H. now apply F in H.
    + rewrite (method_Err _ _ _ _ _ R) in H. eauto with result.
  - destruct R as [p [R|R]]; unfold Result.or in H.
    + rewrite (method_Ok _ _ _ _ _ R) in H. eauto with result.
    + rewrite (method_Err _ _ _ _ _ R) in H. unfold Err_or, ret in H.
      now inversion H; subst.
Qed.

Lemma calls_of_app name j j' :
  calls_of name (j ++ j') = calls_of name j ++ calls_of name j'.
Proof.
  induction j as [|[n x] j IH]; simpl; [reflexivity|].
  destruct (n =? name)%string; simpl; now rewrite IH.
Qed.

(** * Nothing is overwritten *)

Lemma allocating_ret {A} (a : A) : allocating (ret a).
Proof. intros w. apply later_refl. Qed.

Lemma allocating_throw {A} x : allocating (@throw A x).
Proof. intros w. apply later_refl. Qed.

Lemma allocating_new o : allocating (new o).
Proof. intros w. apply later_alloc. Qed.

Lemma allocating_bind {A B} (c : Comp A) (k : A -> Comp B) :
  allocating c -> (forall a, allocating (k a)) -> allocating (bind c k).
Proof.
  intros C K w. unfold bind. specialize (C w).
  destruct (c w) as [[a|x] w1]; simpl in *; [|assumption].
  eapply later_trans; [eassumption | apply K].
Qed.

Lemma allocating_try_catch {A} (body : Comp A) handler :
  allocating body -> (forall x, allocating (handler x)) ->
  allocating (try_catch body handler).
Proof.
  intros C K w. unfold try_catch. specialize (C w).
  destruct (body w) as [[a|x] w1]; simpl in *; [assumption|].
  eapply later_trans; [eassumption | apply K].
Qed.

Lemma allocating_TypeError {A} message : allocating (@throw_TypeError A message).
Proof.
  apply allocating_bind; [apply allocating_new | intros; apply allocating_throw].
Qed.

#[local] Hint Resolve allocating_ret allocating_throw allocating_new
  allocating_TypeError : result.

Lemma allocating_method {A} r (ifOk ifErr : Value -> Comp A) :
  (forall v, allocating (ifOk v)) -> (forall e, allocating (ifErr e)) ->
  allocating (method r ifOk ifErr).
Proof.
  intros HO HE w. unfold method.
  destruct (deref w r) as [[v|e|n m|fs c]|]; auto.
  - apply HO.
  - apply HE.
  - apply allocating_TypeError.
  - apply allocating_TypeError.
  - apply allocating_TypeError.
Qed.

Lemma allocating_ToString v : allocating (ToString v).
Proof.
  intros w. unfold ToString.
  destruct v as [| |[|]|s|d|l]; try apply later_refl.
  - apply allocating_TypeError.
  - destruct (nth l (heap w) (Plain [] Inherited)) as [v|e|n m|fs [|s|x|]];
      simpl; try apply later_refl.
    + destruct (has_field "toString" fs); [|apply later_refl].
      apply (@allocating_TypeError string primitive_message).
    + apply (@allocating_TypeError string primitive_message).
Qed.

Lemma methods_only_allocate : Forall only_allocates all_methods.
Proof.
  unfold all_methods, other_methods, transformers; simpl.
  repeat constructor; intros r d fn options Gf Go Ge;
    apply allocating_method; intros p;
    unfold Ok_isOk, Ok_isErr, Ok_unwrap, Ok_unwrapOr, Ok_mapOr,
      Ok_unwrapOrElse, Ok_match, Ok_map, Ok_mapErr, Ok_andThen, Ok_or,
      Err_isOk, Err_isErr, Err_unwrap, Err_unwrapOr, Err_mapOr,
      Err_unwrapOrElse, Err_match, Err_map, Err_mapErr, Err_andThen, Err_or;
    repeat (apply allocating_bind; [|intros]);
    auto using allocating_ToString with result;
    first [apply Gf | apply Go | apply Ge].
Qed.

Lemma tryAsync_is_result fn w r w' :
  tryAsync fn w = (Normal (Fulfilled r), w') -> is_result w' r.
Proof.
  unfold tryAsync, await, async.
  destruct (fn w) as [[[|t|x]|x] w1]; try discriminate;
    match goal with
    | |- context [match ?c with _ => _ end] =>
        destruct c as [[a|y] w2] eqn:E; intros H; inversion H; subst
    end;
    unfold try_catch, bind, ret, throw in E; simpl in E.
  - apply new_normal in E as [-> ->]. eapply is_result_Ok, holds_new.
  - now apply catch_clause_is_result in E.
  - now apply catch_clause_is_result in E.
Qed.

(** * The two variants *)

(** C6: a success answers [isOk] with true and [isErr] with false, a failure
    the other way round; whatever a constructor, a capture adapter or a
    transformer returns answers the two predicates with opposite booleans,
    the same ones in every later state of the heap; and no method writes to
    an object, so that later states are all there is. *)
Theorem one_variant_for_life :
  (forall v w,
      (r <- ok v ;; Result.isOk r) w = (Normal (VBool true), alloc w (Ok v)) /\
      (r <- ok v ;; Result.isErr r) w = (Normal (VBool false), alloc w (Ok v))) /\
  (forall e w,
      (r <- err e ;; Result.isErr r) w = (Normal (VBool true), alloc w (Err e)) /\
      (r <- err e ;; Result.isOk r) w = (Normal (VBool false), alloc w (Err e))) /\
  (forall w c fn r w1,
      produces w c /\ c w = (Normal r, w1) \/
      tryAsync fn w = (Normal (Fulfilled r), w1) ->
      exists b, forall w2,
        later w1 w2 ->
        Result.isOk r w2 = (Normal (VBool b), w2) /\
        Result.isErr r w2 = (Normal (VBool (negb b)), w2)) /\
  Forall only_allocates all_methods.
Proof.
  split; [|split; [|split]].
  - intros v w. unfold Result.isOk, Result.isErr. now rewrite !ok_then.
  - intros e w. unfold Result.isOk, Result.isErr. now rewrite !err_then.
  - intros w c fn r w1 H.
    assert (R : is_result w1 r).
    { destruct H as [[P H]|H].
      - eapply produces_is_result; eassumption.
      - eapply tryAsync_is_result; eassumption. }
    destruct R as [p [R|R]]; [exists true | exists false];
      intros w2 L; pose proof (holds_later _ _ _ _ R L) as R';
      unfold Result.isOk, Result.isErr;
      rewrite ?(method_Ok _ _ _ _ _ R'), ?(method_Err _ _ _ _ _ R');
      split; reflexivity.
  - exact methods_only_allocate.
Qed.

Lemma one_variant_for_life_witness :
  let w1 := snd (tryFn (throw (VString "boom")) empty_world) in
  exists b,
    Result.isOk (VObject 1) w1 = (Normal (VBool b), w1) /\
    Result.isErr (VObject 1) w1 = (Normal (VBool (negb b)), w1).
Proof.
  destruct one_variant_for_life as (_ & _ & H & _).
  destruct (H empty_world (tryFn (throw (VString "boom"))) (ret Pending)
              (VObject 1) (snd (tryFn (throw (VString "boom")) empty_world)))
    as (b & Hb).
  - left. split; [constructor | reflexivity].
  - exists b. apply Hb. exists []. reflexivity.
Defined.

(** * The operations that hand out a plain value *)

(** C7: on a success [unwrapOr] and [unwrapOrElse] return the held value and
    [mapOr] is the call [fn(v)]; on a failure [unwrapOr] and [mapOr] return
    the default and [unwrapOrElse] is the call [fn(e)]. *)
Theorem default_substitution :
  (forall v d w,
      (r <- ok v ;; Result.unwrapOr r d) w = (Normal v, alloc w (Ok v))) /\
  (forall v f w,
      (r <- ok v ;; Result.unwrapOrElse r f) w = (Normal v, alloc w (Ok v))) /\
  (forall v d f w,
      (r <- ok v ;; Result.mapOr r d f) w = f v (alloc w (Ok v))) /\
  (forall e d w,
      (r <- err e ;; Result.unwrapOr r d) w = (Normal d, alloc w (Err e))) /\
  (forall e f w,
      (r <- err e ;; Result.unwrapOrElse r f) w = f e (alloc w (Err e))) /\
  (forall e d f w,
      (r <- err e ;; Result.mapOr r d f) w = (Normal d, alloc w (Err e))).
Proof.
  unfold Result.unwrapOr, Result.unwrapOrElse, Result.mapOr.
  repeat split; intros; rewrite ?ok_then, ?err_then; reflexivity.
Qed.

(** C8: [match] on a success is the call [options.ok(v)] and nothing else,
    on a failure the call [options.err(e)] and nothing else; with both
    handlers mocked, the journal gains the one call of the matching handler
    with the held payload, and no call of the other. *)
Theorem match_dispatches_once :
  forall f g : Fn, quiet f -> quiet g ->
  let options := Options.make (mock "ok" f) (mock "err" g) in
  (forall v o w,
      (r <- ok v ;; Result.match_ r o) w = Options.ok o v (alloc w (Ok v))) /\
  (forall e o w,
      (r <- err e ;; Result.match_ r o) w = Options.err o e (alloc w (Err e))) /\
  (forall v w,
      let after := snd ((r <- ok v ;; Result.match_ r options) w) in
      fst ((r <- ok v ;; Result.match_ r options) w)
        = fst (f v (note (alloc w (Ok v)) (Invoked "ok" v))) /\
      journal after = journal w ++ [Invoked "ok" v] /\
      calls_of "ok" (journal after) = calls_of "ok" (journal w) ++ [v] /\
      calls_of "err" (journal after) = calls_of "err" (journal w)) /\
  (forall e w,
      let after := snd ((r <- err e ;; Result.match_ r options) w) in
      fst ((r <- err e ;; Result.match_ r options) w)
        = fst (g e (note (alloc w (Err e)) (Invoked "err" e))) /\
      journal after = journal w ++ [Invoked "err" e] /\
      calls_of "err" (journal after) = calls_of "err" (journal w) ++ [e] /\
      calls_of "ok" (journal after) = calls_of "ok" (journal w)).
Proof.
  intros f g Qf Qg options. unfold Result.match_.
  split; [|split; [|split]].
  - intros. now rewrite ok_then.
  - intros. now rewrite err_then.
  - intros v w. cbv zeta. rewrite ok_then.
    unfold Ok_match, options, mock; simpl.
    rewrite Qf; simpl. rewrite calls_of_app, calls_of_app; simpl.
    rewrite app_nil_r. repeat split.
  - intros e w. cbv zeta. rewrite err_then.
    unfold Err_match, options, mock; simpl.
    rewrite Qg; simpl. rewrite calls_of_app, calls_of_app; simpl.
    rewrite app_nil_r. repeat split.
Qed.

Lemma match_dispatches_once_witness :
  let options := Options.make (mock "ok" (fun x => ret x))
                              (mock "err" (fun _ => throw VNull)) in
  let after := snd ((r <- ok (VString "john") ;; Result.match_ r options)
                      empty_world) in
  journal after = [Invoked "ok" (VString "john")].
Proof.
  assert (Q1 : quiet (fun x => ret x)) by (intros x w; reflexivity).
  assert (Q2 : quiet (fun _ => throw VNull)) by (intros x w; reflexivity).
  destruct (match_dispatches_once _ _ Q1 Q2) as (_ & _ & H & _).
  destruct (H (VString "john") empty_world) as (_ & J & _).
  exact J.
Defined.

(** * The transformers *)

Lemma new_fresh o w :
  exists r, new o w = (Normal r, alloc w o)
         /\ holds (alloc w o) r o /\ unallocated w r.
Proof.
  exists (VObject (length (heap w))). split; [reflexivity|].
  split; [apply holds_new | simpl; lia].
Qed.

(** C4: [map] on a success whose function returns [u] returns a new success
    holding [u], on a failure a failure holding the same [e]; [mapErr] on a
    failure whose function returns [u] returns a new failure holding [u], on
    a success a success holding the same [v]. *)
Theorem map_and_mapErr_sides :
  (forall v f w u w1,
      f v (alloc w (Ok v)) = (Normal u, w1) ->
      exists r',
        (r <- ok v ;; Result.map r f) w = (Normal r', alloc w1 (Ok u)) /\
        holds (alloc w1 (Ok u)) r' (Ok u) /\ unallocated w1 r') /\
  (forall e f w,
      exists r',
        (r <- err e ;; Result.map r f) w
          = (Normal r', alloc (alloc w (Err e)) (Err e)) /\
        holds (alloc (alloc w (Err e)) (Err e)) r' (Err e)) /\
  (forall e g w u w1,
      g e (alloc w (Err e)) = (Normal u, w1) ->
      exists r',
        (r <- err e ;; Result.mapErr r g) w = (Normal r', alloc w1 (Err u)) /\
        holds (alloc w1 (Err u)) r' (Err u) /\ unallocated w1 r') /\
  (forall v g w,
      exists r',
        (r <- ok v ;; Result.mapErr r g) w
          = (Normal r', alloc (alloc w (Ok v)) (Ok v)) /\
        holds (alloc (alloc w (Ok v)) (Ok v)) r' (Ok v)).
Proof.
  unfold Result.map, Result.mapErr. split; [|split; [|split]].
  - intros v f w u w1 F. rewrite ok_then. unfold Ok_map, bind. rewrite F.
    apply new_fresh.
  - intros e f w. rewrite err_then. unfold Err_map.
    destruct (new_fresh (Err e) (alloc w (Err e))) as (r' & E & H & _). eauto.
  - intros e g w u w1 G. rewrite err_then. unfold Err_mapErr, bind. rewrite G.
    apply new_fresh.
  - intros v g w. rewrite ok_then. unfold Ok_mapErr.
    destruct (new_fresh (Ok v) (alloc w (Ok v))) as (r' & E & H & _). eauto.
Qed.

Lemma map_and_mapErr_sides_witness :
  exists r',
    (r <- ok (VString "exists.txt") ;;
     Result.map r (fun content => ret (VBool true))) empty_world
      = (Normal r', alloc (alloc empty_world (Ok (VString "exists.txt")))
                          (Ok (VBool true))).
Proof.
  destruct map_and_mapErr_sides as (H & _).
  destruct (H (VString "exists.txt") (fun content => ret (VBool true))
              empty_world (VBool true)
              (alloc empty_world (Ok (VString "exists.txt"))))
    as (r' & E & _).
  - reflexivity.
  - exists r'. exact E.
Defined.

Lemma chain_of_failure fs : forall w r e,
  holds w r (Err e) ->
  exists r' w',
    chain r fs w = (Normal r', w') /\ holds w' r' (Err e) /\
    heap w' = heap w ++ repeat (Err e) (length fs) /\
    journal w' = journal w.
Proof.
  induction fs as [|f fs IH]; intros w r e R; simpl.
  - exists r, w. now rewrite app_nil_r.
  - unfold bind, Result.andThen. rewrite (method_Err _ _ _ _ _ R).
    unfold Err_andThen, new.
    destruct (IH (alloc w (Err e)) (VObject (length (heap w))) e (holds_new _ _))
      as (r' & w' & C & R' & Hh & Hj).
    exists r', w'. repeat split; try assumption.
    rewrite Hh. simpl. now rewrite <- app_assoc.
Qed.

(** C3: [andThen] on a success is the call [f(v)], whose result is returned
    as it is; on a failure it returns a failure holding the same [e]
    whatever [f] is; and a chain of [andThen] started on a failure returns a
    failure holding that [e], having allocated one failure per step and
    called none of the continuations (the journal of the mocks is as
    before). *)
Theorem andThen_flattens_and_short_circuits :
  (forall v f w,
      (r <- ok v ;; Result.andThen r f) w = f v (alloc w (Ok v))) /\
  (forall e f w,
      exists r',
        (r <- err e ;; Result.andThen r f) w
          = (Normal r', alloc (alloc w (Err e)) (Err e)) /\
        holds (alloc (alloc w (Err e)) (Err e)) r' (Err e)) /\
  (forall e fs w,
      exists r' w',
        (r <- err e ;; chain r fs) w = (Normal r', w') /\
        holds w' r' (Err e) /\
        heap w' = heap w ++ Err e :: repeat (Err e) (length fs) /\
        journal w' = journal w).
Proof.
  split; [|split].
  - intros v f w. unfold Result.andThen. now rewrite ok_then.
  - intros e f w. unfold Result.andThen. rewrite err_then. unfold Err_andThen.
    destruct (new_fresh (Err e) (alloc w (Err e))) as (r' & E & H & _). eauto.
  - intros e fs w. unfold bind, err, new.
    destruct (chain_of_failure fs (alloc w (Err e)) (VObject (length (heap w))) e
                (holds_new _ _)) as (r' & w' & C & R' & Hh & Hj).
    exists r', w'. repeat split; try assumption.
    rewrite Hh. simpl. now rewrite <- app_assoc.
Qed.

(** C10: on a failure [map] and [andThen] do the same whatever function they
    are given, and [mapOr] returns the default; on a success [mapErr] does
    the same whatever function it is given and [unwrapOrElse] returns the
    held value; a mocked function handed to any of them is not called. *)
Theorem other_variant_ignores_function :
  (forall w r e, holds w r (Err e) ->
     (forall f g, Result.map r f w = Result.map r g w) /\
     (forall f g, Result.andThen r f w = Result.andThen r g w) /\
     (forall d f, Result.mapOr r d f w = (Normal d, w)) /\
     (forall name f d,
        calls_of name (journal (snd (Result.map r (mock name f) w)))
          = calls_of name (journal w) /\
        calls_of name (journal (snd (Result.andThen r (mock name f) w)))
          = calls_of name (journal w) /\
        calls_of name (journal (snd (Result.mapOr r d (mock name f) w)))
          = calls_of name (journal w))) /\
  (forall w r v, holds w r (Ok v) ->
     (forall f g, Result.mapErr r f w = Result.mapErr r g w) /\
     (forall f, Result.unwrapOrElse r f w = (Normal v, w)) /\
     (forall name f,
        calls_of name (journal (snd (Result.mapErr r (mock name f) w)))
          = calls_of name (journal w) /\
        calls_of name (journal (snd (Result.unwrapOrElse r (mock name f) w)))
          = calls_of name (journal w))).
Proof.
  unfold Result.map, Result.andThen, Result.mapOr, Result.mapErr,
    Result.unwrapOrElse.
  split; intros w r p R.
  - repeat split; intros; rewrite !(method_Err _ _ _ _ _ R); reflexivity.
  - repeat split; intros; rewrite !(method_Ok _ _ _ _ _ R); reflexivity.
Qed.

Lemma other_variant_ignores_function_witness :
  let w := alloc empty_world (Err (VString "Division by zero")) in
  Result.map (VObject 0) (fun _ => throw VNull) w
    = Result.map (VObject 0) (fun x => ret x) w.
Proof.
  destruct other_variant_ignores_function as (H & _).
  destruct (H (alloc empty_world (Err (VString "Division by zero")))
              (VObject 0) (VString "Division by zero")) as (M & _).
  - reflexivity.
  - apply M.
Defined.

(** * [unwrap] *)

Lemma append_empty_r (s : string) : (s ++ "")%string = s.
Proof. induction s as [|c s IH]; simpl; [reflexivity | now rewrite IH]. Qed.

Lemma ToString_pure v w s w1 : ToString v w = (Normal s, w1) -> w1 = w.
Proof.
  unfold ToString. destruct v as [| |[|]|s0|d|l]; try (intros H; now inversion H).
  destruct (nth l (heap w) (Plain [] Inherited)) as [v|e|n m|fs [|s0|x|]];
    simpl; try destruct (has_field "toString" fs);
    intros H; now inversion H.
Qed.

Lemma Err_unwrap_refused e w y w1 :
  ToString e w = (Throw y, w1) -> Err_unwrap e w = (Throw y, w1).
Proof. intros H. unfold Err_unwrap, bind. now rewrite H. Qed.

Lemma Err_unwrap_converted e w s w1 :
  ToString e w = (Normal s, w1) ->
  Err_unwrap e w
    = (Throw (VObject (length (heap w))),
       alloc w (Error "Error" ("Tried to unwrap an Err: " ++ s)%string)).
Proof.
  intros H. pose proof (ToString_pure _ _ _ _ H) as ->.
  unfold Err_unwrap, bind. now rewrite H.
Qed.

Lemma Err_unwrap_raises e w : exists x w', Err_unwrap e w = (Throw x, w').
Proof.
  unfold Err_unwrap, bind.
  destruct (ToString e w) as [[s|x] w1]; cbv [new throw]; eauto.
Qed.

Lemma total_normal (f : Fn) x w : total f -> normal (f x) w.
Proof. intros T. apply T. Qed.

Lemma new_returns o w : normal (new o) w.
Proof. now exists (VObject (length (heap w))), (alloc w o). Qed.

Lemma bind_returns {A B} (c : Comp A) (k : A -> Comp B) w :
  normal c w -> (forall a w', normal (k a) w') -> normal (bind c k) w.
Proof.
  intros (a & w1 & C) K. unfold normal, bind. rewrite C. apply K.
Qed.

Lemma ret_returns {A} (a : A) w : normal (ret a) w.
Proof. now exists a, w. Qed.

#[local] Hint Resolve new_returns ret_returns total_normal : result.

Lemma method_returns {A} w r (ifOk ifErr : Value -> Comp A) :
  is_result w r ->
  (forall v, normal (ifOk v) w) -> (forall e, normal (ifErr e) w) ->
  normal (method r ifOk ifErr) w.
Proof.
  intros [p [R|R]] HO HE; unfold normal.
  - rewrite (method_Ok _ _ _ _ _ R). apply HO.
  - rewrite (method_Err _ _ _ _ _ R). apply HE.
Qed.

Lemma other_methods_raise_nothing : Forall raises_nothing_of_its_own other_methods.
Proof.
  unfold other_methods, transformers; simpl.
  repeat constructor; intros w r d fn options R Tf To Te;
    apply method_returns; try assumption; intros p;
    unfold Ok_isOk, Ok_isErr, Ok_unwrapOr, Ok_mapOr, Ok_unwrapOrElse, Ok_match,
      Ok_map, Ok_mapErr, Ok_andThen, Ok_or,
      Err_isOk, Err_isErr, Err_unwrapOr, Err_mapOr, Err_unwrapOrElse, Err_match,
      Err_map, Err_mapErr, Err_andThen, Err_or;
    try (apply bind_returns; intros); auto with result.
Qed.

(** C2, what holds: [unwrap] on a success returns the held value; on a
    failure it never returns, it raises; when the conversion of [e] to a
    string completes with [s], what it raises is a new [Error] whose message
    contains [s]; when the conversion throws, what it threw is what [unwrap]
    raises, in the state the conversion left; and no other method of a
    Result has a failure of its own. *)
Theorem unwrap_returns_or_raises :
  (forall v w, (r <- ok v ;; Result.unwrap r) w = (Normal v, alloc w (Ok v))) /\
  (forall e w, exists x w', (r <- err e ;; Result.unwrap r) w = (Throw x, w')) /\
  (forall w r v, holds w r (Ok v) -> Result.unwrap r w = (Normal v, w)) /\
  (forall w r e, holds w r (Err e) ->
     exists x w', Result.unwrap r w = (Throw x, w')) /\
  (forall w r e s w1,
     holds w r (Err e) -> ToString e w = (Normal s, w1) ->
     exists x message,
       Result.unwrap r w = (Throw x, alloc w (Error "Error" message)) /\
       holds (alloc w (Error "Error" message)) x (Error "Error" message) /\
       unallocated w x /\ occurs_in s message) /\
  (forall w r e y w1,
     holds w r (Err e) -> ToString e w = (Throw y, w1) ->
     Result.unwrap r w = (Throw y, w1)) /\
  Forall raises_nothing_of_its_own other_methods.
Proof.
  unfold Result.unwrap. split; [|split; [|split; [|split; [|split; [|split]]]]].
  - intros v w. now rewrite ok_then.
  - intros e w. rewrite err_then. apply Err_unwrap_raises.
  - intros w r v R. now rewrite (method_Ok _ _ _ _ _ R).
  - intros w r e R. rewrite (method_Err _ _ _ _ _ R). apply Err_unwrap_raises.
  - intros w r e s w1 R H. rewrite (method_Err _ _ _ _ _ R).
    rewrite (Err_unwrap_converted _ _ _ _ H).
    exists (VObject (length (heap w))), ("Tried to unwrap an Err: " ++ s)%string.
    split; [reflexivity|]. split; [apply holds_new|].
    split; [simpl; lia|].
    exists "Tried to unwrap an Err: ", "". now rewrite append_empty_r.
  - intros w r e y w1 R H. rewrite (method_Err _ _ _ _ _ R).
    apply Err_unwrap_refused, H.
  - exact other_methods_raise_nothing.
Qed.

Lemma unwrap_returns_or_raises_witness :
  let w := alloc empty_world (Err (VString "Division by zero")) in
  exists x message,
    Result.unwrap (VObject 0) w = (Throw x, alloc w (Error "Error" message)) /\
    occurs_in "Division by zero" message.
Proof.
  destruct unwrap_returns_or_raises as (_ & _ & _ & _ & H & _).
  destruct (H (alloc empty_world (Err (VString "Division by zero")))
              (VObject 0) (VString "Division by zero") "Division by zero"
              (alloc empty_world (Err (VString "Division by zero"))))
    as (x & message & E & _ & _ & O).
  - reflexivity.
  - reflexivity.
  - exists x, message. split; assumption.
Defined.

(** C2 as worded fails: a failure whose payload has a [toString] that throws
    [undefined] makes [unwrap] raise [undefined], which is no error object
    and has no message. *)
Lemma unwrap_raises_what_toString_threw :
  let w := alloc empty_world (Plain [] (Raises VUndefined)) in
  let e := VObject 0 in
  (r <- err e ;; Result.unwrap r) w = (Throw VUndefined, alloc w (Err e)) /\
  forall name message,
    ~ holds (alloc w (Err e)) VUndefined (Error name message).
Proof.
  split.
  - reflexivity.
  - intros name message H. exact H.
Qed.

(** C9, what holds: when the conversion of [e] to a string completes with
    [s], the error raised by [unwrap] is a new [Error] whose message is
    exactly ["Tried to unwrap an Err: "] followed by [s]; when the conversion
    throws, what it threw is what [unwrap] raises; for an object that
    inherits [Object.prototype.toString] and has no property named
    [toString] to hide it, a record of fields for instance, the message is
    ["Tried to unwrap an Err: [object Object]"] whatever the fields hold. *)
Theorem unwrap_message_form :
  (forall w r e s w1,
     holds w r (Err e) -> ToString e w = (Normal s, w1) ->
     exists x,
       Result.unwrap r w
         = (Throw x, alloc w (Error "Error" ("Tried to unwrap an Err: " ++ s)%string)) /\
       holds (alloc w (Error "Error" ("Tried to unwrap an Err: " ++ s)%string)) x
             (Error "Error" ("Tried to unwrap an Err: " ++ s)%string)) /\
  (forall w r e y w1,
     holds w r (Err e) -> ToString e w = (Throw y, w1) ->
     Result.unwrap r w = (Throw y, w1)) /\
  (forall w r e fields,
     holds w r (Err e) -> holds w e (Plain fields Inherited) ->
     has_field "toString" fields = false ->
     exists x,
       Result.unwrap r w
         = (Throw x, alloc w (Error "Error" "Tried to unwrap an Err: [object Object]")) /\
       holds (alloc w (Error "Error" "Tried to unwrap an Err: [object Object]")) x
             (Error "Error" "Tried to unwrap an Err: [object Object]")).
Proof.
  assert (G : forall w r e s w1,
     holds w r (Err e) -> ToString e w = (Normal s, w1) ->
     exists x,
       Result.unwrap r w
         = (Throw x, alloc w (Error "Error" ("Tried to unwrap an Err: " ++ s)%string)) /\
       holds (alloc w (Error "Error" ("Tried to unwrap an Err: " ++ s)%string)) x
             (Error "Error" ("Tried to unwrap an Err: " ++ s)%string)).
  { intros w r e s w1 R H. unfold Result.unwrap.
    rewrite (method_Err _ _ _ _ _ R), (Err_unwrap_converted _ _ _ _ H).
    eexists. split; [reflexivity | apply holds_new]. }
  split; [exact G|]. split.
  - intros w r e y w1 R H. unfold Result.unwrap.
    rewrite (method_Err _ _ _ _ _ R). apply Err_unwrap_refused, H.
  - intros w r e fields R P F.
    apply (G w r e "[object Object]" w R).
    destruct e as [| | | | |l]; simpl in P; try contradiction.
    unfold ToString. rewrite (nth_error_nth _ _ _ P). simpl. now rewrite F.
Qed.

Lemma unwrap_message_form_witness :
  let record := Plain [("field", VString "username");
                       ("message", VString "Username is required")] Inherited in
  let w := alloc (alloc empty_world record) (Err (VObject 0)) in
  exists x,
    Result.unwrap (VObject 1) w
      = (Throw x, alloc w (Error "Error" "Tried to unwrap an Err: [object Object]")).
Proof.
  destruct unwrap_message_form as (_ & _ & H).
  destruct (H (alloc (alloc empty_world
                 (Plain [("field", VString "username");
                         ("message", VString "Username is required")] Inherited))
                 (Err (VObject 0)))
              (VObject 1) (VObject 0)
              [("field", VString "username");
               ("message", VString "Username is required")])
    as (x & E & _).
  - reflexivity.
  - reflexivity.
  - reflexivity.
  - exists x. exact E.
Defined.

(** C9 as worded fails: on a failure holding a symbol the template literal
    refuses the conversion, and the error raised is the engine's TypeError,
    whose message does not start with ["Tried to unwrap an Err: "]. *)
Lemma unwrap_of_symbol_raises_TypeError :
  let e := VSymbol (Some "x") in
  let w' := alloc (alloc empty_world (Err e)) (Error "TypeError" symbol_message) in
  (r <- err e ;; Result.unwrap r) empty_world = (Throw (VObject 1), w') /\
  holds w' (VObject 1) (Error "TypeError" symbol_message) /\
  forall s, symbol_message <> ("Tried to unwrap an Err: " ++ s)%string.
Proof.
  split; [reflexivity|]. split; [reflexivity|].
  intros s H. discriminate H.
Qed.

(** * Totality and freshness of the transformers *)

Lemma transformers_raise_nothing : Forall raises_nothing_of_its_own transformers.
Proof.
  pose proof other_methods_raise_nothing as H. unfold other_methods in H.
  apply Forall_app in H. apply H.
Qed.

Lemma bind_grows (fn : Fn) v o w r' w' :
  grows fn -> (u <- fn v ;; new (o u)) w = (Normal r', w') -> unallocated w r'.
Proof.
  intros G H. apply bind_normal in H as (u & w1 & F & H).
  apply new_normal in H as [-> _]. simpl.
  apply later_length. specialize (G v w). now rewrite F in G.
Qed.

(** C5, what holds: none of [map], [mapErr], [andThen] and [or] has a
    failure of its own (given functions that return normally, it returns
    normally), and what the function given to it throws passes through
    unchanged; what it returns normally is a Result, for [andThen] and [or]
    when the continuation returns one and the alternative is one; that
    Result is newly allocated by [map] and [mapErr] (the function only
    allocating), by [or] on a success and by [andThen] on a failure, whereas
    [or] on a failure returns the alternative it was given, allocating
    nothing, and [andThen] on a success is the call of the continuation. *)
Theorem transformers_propagate_and_allocate :
  Forall raises_nothing_of_its_own transformers /\
  (forall w r v fn x w1,
     holds w r (Ok v) -> fn v w = (Throw x, w1) ->
     Result.map r fn w = (Throw x, w1) /\
     Result.andThen r fn w = (Throw x, w1)) /\
  (forall w r e fn x w1,
     holds w r (Err e) -> fn e w = (Throw x, w1) ->
     Result.mapErr r fn w = (Throw x, w1)) /\
  (forall w c r' w',
     produces w c -> c w = (Normal r', w') -> is_result w' r') /\
  (forall w r fn r' w',
     is_result w r -> grows fn ->
     Result.map r fn w = (Normal r', w') \/
     Result.mapErr r fn w = (Normal r', w') ->
     unallocated w r') /\
  (forall w r v res r' w',
     holds w r (Ok v) -> Result.or r res w = (Normal r', w') ->
     unallocated w r') /\
  (forall w r e fn r' w',
     holds w r (Err e) -> Result.andThen r fn w = (Normal r', w') ->
     unallocated w r') /\
  (forall w r e res,
     holds w r (Err e) -> Result.or r res w = (Normal res, w)) /\
  (forall w r v fn,
     holds w r (Ok v) -> Result.andThen r fn w = fn v w).
Proof.
  unfold Result.map, Result.mapErr, Result.andThen, Result.or.
  split; [exact transformers_raise_nothing|].
  split; [|split; [|split; [|split; [|split; [|split; [|split]]]]]].
  - intros w r v fn x w1 R F. rewrite !(method_Ok _ _ _ _ _ R).
    unfold Ok_map, Ok_andThen, bind. now rewrite F.
  - intros w r e fn x w1 R F. rewrite (method_Err _ _ _ _ _ R).
    unfold Err_mapErr, bind. now rewrite F.
  - intros w c r' w'. apply produces_is_result.
  - intros w r fn r' w' [p [R|R]] G;
      rewrite ?(method_Ok _ _ _ _ _ R), ?(method_Err _ _ _ _ _ R);
      unfold Ok_map, Ok_mapErr, Err_map, Err_mapErr; intros [H|H];
      try (now apply bind_grows in H);
      apply new_normal in H as [-> _]; simpl; lia.
  - intros w r v res r' w' R H. rewrite (method_Ok _ _ _ _ _ R) in H.
    apply new_normal in H as [-> _]. simpl; lia.
  - intros w r e fn r' w' R H. rewrite (method_Err _ _ _ _ _ R) in H.
    apply new_normal in H as [-> _]. simpl; lia.
  - intros w r e res R. now rewrite (method_Err _ _ _ _ _ R).
  - intros w r v fn R. now rewrite (method_Ok _ _ _ _ _ R).
Qed.

Lemma transformers_propagate_and_allocate_witness :
  let w := alloc empty_world (Ok (VString "file contents")) in
  let fn : Fn := fun _ => throw (VString "Permission denied") in
  Result.map (VObject 0) fn w = (Throw (VString "Permission denied"), w) /\
  Result.andThen (VObject 0) fn w = (Throw (VString "Permission denied"), w).
Proof.
  destruct transformers_propagate_and_allocate as (_ & H & _).
  apply (H (alloc empty_world (Ok (VString "file contents"))) (VObject 0)
           (VString "file contents")).
  - reflexivity.
  - reflexivity.
Defined.

(** C5 as worded fails: [or] on a failure returns the very Result it was
    given, which was allocated before the call; and [map] with a function
    that throws returns no Result, the exception leaves the call. *)
Lemma or_hands_back_its_argument :
  let w := alloc (alloc empty_world (Err (VString "Division by zero")))
                 (Ok (VString "5")) in
  (Result.or (VObject 0) (VObject 1) w = (Normal (VObject 1), w) /\
   holds w (VObject 1) (Ok (VString "5")) /\
   ~ unallocated w (VObject 1)) /\
  (r <- ok VNull ;; Result.map r (fun _ => throw (VString "boom"))) empty_world
    = (Throw (VString "boom"), alloc empty_world (Ok VNull)).
Proof.
  split; [|reflexivity].
  split; [reflexivity|]. split; [reflexivity|].
  simpl. lia.
Qed.

(** * The capture adapters *)

(** What [tryFn] does with each outcome of [fn]. *)
Lemma tryFn_captures fn w :
  (forall t w1, fn w = (Normal t, w1) -> tryFn fn w = new (Ok t) w1) /\
  (forall x w1 name message,
     fn w = (Throw x, w1) -> holds w1 x (Error name message) ->
     tryFn fn w = new (Err x) w1) /\
  (forall x w1 s w2,
     fn w = (Throw x, w1) -> instanceof_Error x w1 = (Normal false, w1) ->
     String_ x w1 = (Normal s, w2) ->
     tryFn fn w = (payload <- new (Error "Error" s) ;; new (Err payload)) w2) /\
  (forall x w1 y w2,
     fn w = (Throw x, w1) -> instanceof_Error x w1 = (Normal false, w1) ->
     String_ x w1 = (Throw y, w2) ->
     tryFn fn w = (Throw y, w2)).
Proof.
  unfold tryFn, try_catch, bind. repeat split.
  - intros t w1 F. now rewrite F.
  - intros x w1 name message F R. rewrite F. unfold catch_clause, bind.
    unfold instanceof_Error. now rewrite (holds_deref _ _ _ R).
  - intros x w1 s w2 F I S. rewrite F. unfold catch_clause, bind.
    now rewrite I, S.
  - intros x w1 y w2 F I S. rewrite F. unfold catch_clause, bind.
    now rewrite I, S.
Qed.

(** What [tryAsync] does with each outcome of [fn]: as [tryFn], inside the
    promise it returns. *)
Lemma tryAsync_captures fn w :
  (forall w1, fn w = (Normal Pending, w1) -> tryAsync fn w = (Normal Pending, w1)) /\
  (forall t w1,
     fn w = (Normal (Fulfilled t), w1) ->
     tryAsync fn w = async (new (Ok t)) w1) /\
  (forall x w1,
     fn w = (Normal (Rejected x), w1) \/ fn w = (Throw x, w1) ->
     tryAsync fn w = async (catch_clause x) w1) /\
  (exists p w', tryAsync fn w = (Normal p, w')).
Proof.
  unfold tryAsync, await, async, try_catch, bind, ret, throw.
  split; [|split; [|split]].
  - intros w1 F. now rewrite F.
  - intros t w1 F. now rewrite F.
  - intros x w1 [F|F]; now rewrite F.
  - destruct (fn w) as [[[|t|x]|x] w1]; eauto;
      match goal with
      | |- context [match ?c with _ => _ end] => destruct c as [[?|?] ?]; eauto
      end.
Qed.

(** C1 fails on a thrown value that is no [Error] and that [String] cannot
    convert, here an object without prototype ([Object.create(null)]): the
    TypeError of the conversion is raised inside the [catch] clause, leaves
    [tryFn], and rejects the promise of [tryAsync]. *)
Theorem capture_lets_conversion_failure_escape :
  let w := alloc empty_world (Plain [] Absent) in
  let x := VObject 0 in
  let w' := alloc w (Error "TypeError" primitive_message) in
  tryFn (throw x) w = (Throw (VObject 1), w') /\
  tryAsync (ret (Rejected x)) w = (Normal (Rejected (VObject 1)), w') /\
  holds w' (VObject 1) (Error "TypeError" primitive_message).
Proof. repeat split. Qed.

(** * The scenarios of the test suite, run on the embedding *)

Example read_existing_file :
  (r <- tryFn (readFile "exists.txt") ;; Result.unwrap r) empty_world
    = (Normal (VString "file contents"),
       {| heap := [Ok (VString "file contents")]; journal := [] |}).
Proof. reflexivity. Qed.

Example read_missing_file :
  tryFn (readFile "nonexistent.txt") empty_world
    = (Normal (VObject 1),
       {| heap := [Error "Error" "File not found"; Err (VObject 0)];
          journal := [] |}).
Proof. reflexivity. Qed.

Example capture_of_a_thrown_string :
  tryFn (throw (VString "HTTP error: 404")) empty_world
    = (Normal (VObject 1),
       {| heap := [Error "Error" "HTTP error: 404"; Err (VObject 0)];
          journal := [] |}).
Proof. reflexivity. Qed.

Example fetch_not_found :
  tryAsync (fetched false "404" VUndefined) empty_world
    = (Normal (Fulfilled (VObject 1)),
       {| heap := [Error "Error" "HTTP error: 404"; Err (VObject 0)];
          journal := [] |}).
Proof. reflexivity. Qed.

Example fetch_success :
  tryAsync (fetched true "200" (VString "success")) empty_world
    = (Normal (Fulfilled (VObject 0)),
       {| heap := [Ok (VString "success")]; journal := [] |}).
Proof. reflexivity. Qed.

(** [validateUser("jo", "a@b.com")]: the failure of the user name comes
    out, and nothing of the e-mail's validation was allocated. *)
Example short_user_name :
  (r <- validateUser "jo" "a@b.com" ;; Result.isErr r) empty_world
    = (Normal (VBool true),
       {| heap := [Plain [("field", VString "username");
                          ("message",
                           VString "Username must be at least 3 characters")]
                         Inherited;
                   Err (VObject 0); Err (VObject 0)];
          journal := [] |}).
Proof. reflexivity. Qed.

Example valid_user :
  validateUser "john" "john@example.com" empty_world
    = (Normal (VObject 3),
       {| heap := [Ok (VString "john"); Ok (VString "john@example.com");
                   Plain [("username", VString "john");
                          ("email", VString "john@example.com")] Inherited;
                   Ok (VObject 2)];
          journal := [] |}).
Proof. reflexivity. Qed.

(** * How the methods compose *)

Lemma holds_not_both w r v e : holds w r (Ok v) -> holds w r (Err e) -> False.
Proof. destruct r; simpl; try contradiction. congruence. Qed.

Lemma yields_new o w : yields (new o) w o.
Proof.
  exists (VObject (length (heap w))), (alloc w o).
  split; [reflexivity|]. split; [apply holds_new | reflexivity].
Qed.

Lemma map_pure_Ok w r v h :
  holds w r (Ok v) -> Result.map r (pure h) w = new (Ok (h v)) w.
Proof. intros R. unfold Result.map. now rewrite (method_Ok _ _ _ _ _ R). Qed.

Lemma map_Err w r e fn :
  holds w r (Err e) -> Result.map r fn w = new (Err e) w.
Proof. intros R. unfold Result.map. now rewrite (method_Err _ _ _ _ _ R). Qed.

Lemma mapErr_pure_Err w r e h :
  holds w r (Err e) -> Result.mapErr r (pure h) w = new (Err (h e)) w.
Proof. intros R. unfold Result.mapErr. now rewrite (method_Err _ _ _ _ _ R). Qed.

Lemma mapErr_Ok w r v fn :
  holds w r (Ok v) -> Result.mapErr r fn w = new (Ok v) w.
Proof. intros R. unfold Result.mapErr. now rewrite (method_Ok _ _ _ _ _ R). Qed.

Lemma yields_one (c : Comp Value) o w : c w = new o w -> yields c w o.
Proof.
  intros E. unfold yields. rewrite E.
  exists (VObject (length (heap w))), (alloc w o).
  split; [reflexivity|]. split; [apply holds_new | reflexivity].
Qed.

(** Two transformers in a row, each allocating its result. *)
Lemma yields_two (c : Comp Value) (k : Value -> Comp Value) o1 o2 w :
  c w = new o1 w ->
  k (VObject (length (heap w))) (alloc w o1) = new o2 (alloc w o1) ->
  yields (r <- c ;; k r) w o2.
Proof.
  intros E1 E2. unfold yields, bind. rewrite E1. unfold new at 1. rewrite E2.
  exists (VObject (length (heap (alloc w o1)))), (alloc (alloc w o1) o2).
  split; [reflexivity|]. split; [apply holds_new | reflexivity].
Qed.

(** [map] is [andThen] with the function's result wrapped by [ok]: the two
    calls do the same on every receiver, with every function. *)
Theorem map_is_andThen_ok r fn w :
  Result.map r fn w = Result.andThen r (fun x => u <- fn x ;; ok u) w.
Proof.
  unfold Result.map, Result.andThen, method.
  destruct (deref w r) as [[v|e|n m|fs c]|]; reflexivity.
Qed.

(** The functor laws of [map], for functions without effects: mapping the
    identity returns a copy of the receiver, and mapping [f] then [g]
    returns a Result equal to the one of mapping their composition (on a
    success it holds [g (f v)], on a failure the same [e]). *)
Theorem map_functor_laws w r :
  (forall v, holds w r (Ok v) ->
     yields (Result.map r (pure (fun x => x))) w (Ok v) /\
     forall f g,
       yields (r' <- Result.map r (pure f) ;; Result.map r' (pure g)) w
              (Ok (g (f v))) /\
       yields (Result.map r (pure (fun x => g (f x)))) w (Ok (g (f v)))) /\
  (forall e, holds w r (Err e) ->
     yields (Result.map r (pure (fun x => x))) w (Err e) /\
     forall f g,
       yields (r' <- Result.map r (pure f) ;; Result.map r' (pure g)) w (Err e) /\
       yields (Result.map r (pure (fun x => g (f x)))) w (Err e)).
Proof.
  split; intros p R.
  - split; [apply yields_one, (map_pure_Ok w r p (fun x => x) R)|].
    intros f g. split.
    + apply (yields_two _ _ (Ok (f p))).
      * apply (map_pure_Ok w r p f R).
      * apply (map_pure_Ok _ _ (f p) g), holds_new.
    + apply yields_one, (map_pure_Ok w r p (fun x => g (f x)) R).
  - split; [apply yields_one, map_Err, R|].
    intros f g. split.
    + apply (yields_two _ _ (Err p)).
      * apply map_Err, R.
      * apply map_Err, holds_new.
    + apply yields_one, map_Err, R.
Qed.

(** The same laws for [mapErr], and the two transformers commute: mapping
    the value and the error in either order returns equal Results. *)
Theorem mapErr_functor_laws w r :
  (forall e, holds w r (Err e) ->
     yields (Result.mapErr r (pure (fun x => x))) w (Err e) /\
     forall f g,
       yields (r' <- Result.mapErr r (pure f) ;; Result.mapErr r' (pure g)) w
              (Err (g (f e))) /\
       yields (Result.mapErr r (pure (fun x => g (f x)))) w (Err (g (f e))) /\
       yields (r' <- Result.map r (pure f) ;; Result.mapErr r' (pure g)) w
              (Err (g e)) /\
       yields (r' <- Result.mapErr r (pure g) ;; Result.map r' (pure f)) w
              (Err (g e))) /\
  (forall v, holds w r (Ok v) ->
     yields (Result.mapErr r (pure (fun x => x))) w (Ok v) /\
     forall f g,
       yields (r' <- Result.mapErr r (pure f) ;; Result.mapErr r' (pure g)) w
              (Ok v) /\
       yields (r' <- Result.map r (pure f) ;; Result.mapErr r' (pure g)) w
              (Ok (f v)) /\
       yields (r' <- Result.mapErr r (pure g) ;; Result.map r' (pure f)) w
              (Ok (f v))).
Proof.
  split; intros p R.
  - split; [apply yields_one, (mapErr_pure_Err w r p (fun x => x) R)|].
    intros f g. repeat split.
    + apply (yields_two _ _ (Err (f p))).
      * apply (mapErr_pure_Err w r p f R).
      * apply (mapErr_pure_Err _ _ (f p) g), holds_new.
    + apply yields_one, (mapErr_pure_Err w r p (fun x => g (f x)) R).
    + apply (yields_two _ _ (Err p)).
      * apply map_Err, R.
      * apply (mapErr_pure_Err _ _ p g), holds_new.
    + apply (yields_two _ _ (Err (g p))).
      * apply (mapErr_pure_Err w r p g R).
      * apply map_Err, holds_new.
  - split; [apply yields_one, mapErr_Ok, R|].
    intros f g. repeat split.
    + apply (yields_two _ _ (Ok p)).
      * apply mapErr_Ok, R.
      * apply mapErr_Ok, holds_new.
    + apply (yields_two _ _ (Ok (f p))).
      * apply (map_pure_Ok w r p f R).
      * apply mapErr_Ok, holds_new.
    + apply (yields_two _ _ (Ok p)).
      * apply mapErr_Ok, R.
      * apply (map_pure_Ok _ _ p f), holds_new.
Qed.

Lemma mapErr_functor_laws_witness :
  let w := alloc empty_world (Err (VString "Division by zero")) in
  yields (r' <- Result.map (VObject 0) (pure (fun _ => VNull)) ;;
          Result.mapErr r' (pure (fun _ => VBool false))) w
         (Err (VBool false)).
Proof.
  destruct (mapErr_functor_laws
              (alloc empty_world (Err (VString "Division by zero")))
              (VObject 0)) as (H & _).
  destruct (H (VString "Division by zero")) as (_ & L).
  - reflexivity.
  - destruct (L (fun _ => VNull) (fun _ => VBool false)) as (_ & _ & C & _).
    exact C.
Defined.

Lemma map_functor_laws_witness :
  let w := alloc empty_world (Ok (VString "john")) in
  yields (r' <- Result.map (VObject 0) (pure (fun _ => VNull)) ;;
          Result.map r' (pure (fun x => x))) w
         (Ok VNull).
Proof.
  destruct (map_functor_laws (alloc empty_world (Ok (VString "john")))
              (VObject 0)) as (H & _).
  destruct (H (VString "john")) as (_ & L).
  - reflexivity.
  - destruct (L (fun _ => VNull) (fun x => x)) as (C & _). exact C.
Defined.

(** The monad laws of [andThen] beyond left identity. Right identity:
    [r.andThen(ok)] returns a copy of [r]. Associativity: on a success,
    chaining [f] then [g] is the very computation of chaining
    [x => f(x).andThen(g)], whatever the effects of [f] and [g]; on a
    failure both return a failure holding the same payload and call
    nothing. *)
Theorem andThen_monad_laws w r :
  (forall v, holds w r (Ok v) ->
     yields (Result.andThen r ok) w (Ok v) /\
     forall f g,
       (r' <- Result.andThen r f ;; Result.andThen r' g) w
         = Result.andThen r (fun x => r' <- f x ;; Result.andThen r' g) w) /\
  (forall e, holds w r (Err e) ->
     yields (Result.andThen r ok) w (Err e) /\
     forall f g,
       yields (r' <- Result.andThen r f ;; Result.andThen r' g) w (Err e) /\
       yields (Result.andThen r (fun x => r' <- f x ;; Result.andThen r' g)) w
              (Err e)).
Proof.
  split; intros p R.
  - split.
    + apply yields_one. unfold Result.andThen.
      now rewrite (method_Ok _ _ _ _ _ R).
    + intros f g. unfold bind at 1. unfold Result.andThen at 1 3.
      rewrite !(method_Ok _ _ _ _ _ R). reflexivity.
  - assert (E : forall fn w' r', holds w' r' (Err p) ->
                  Result.andThen r' fn w' = new (Err p) w').
    { intros fn w' r' R'. unfold Result.andThen.
      now rewrite (method_Err _ _ _ _ _ R'). }
    split; [apply yields_one, E, R|].
    intros f g. split.
    + apply (yields_two _ _ (Err p)); apply E; [exact R | apply holds_new].
    + apply yields_one, E, R.
Qed.

Lemma andThen_monad_laws_witness :
  let w := alloc empty_world (Ok (VString "john")) in
  yields (Result.andThen (VObject 0) ok) w (Ok (VString "john")).
Proof.
  destruct (andThen_monad_laws (alloc empty_world (Ok (VString "john")))
              (VObject 0)) as (H & _).
  destruct (H (VString "john")) as (C & _).
  - reflexivity.
  - exact C.
Defined.



(** [match] subsumes the operations that hand out a plain value: each of
    [isOk], [unwrapOr], [unwrapOrElse] and [mapOr] is the [match] with the
    corresponding pair of handlers, on every receiver. *)
Theorem match_subsumes r d f w :
  Result.isOk r w
    = Result.match_ r (Options.make (fun _ => ret (VBool true))
                                    (fun _ => ret (VBool false))) w /\
  Result.unwrapOr r d w
    = Result.match_ r (Options.make (fun v => ret v) (fun _ => ret d)) w /\
  Result.unwrapOrElse r f w
    = Result.match_ r (Options.make (fun v => ret v) f) w /\
  Result.mapOr r d f w
    = Result.match_ r (Options.make f (fun _ => ret d)) w.
Proof.
  unfold Result.isOk, Result.unwrapOr, Result.unwrapOrElse, Result.mapOr,
    Result.match_, method.
  destruct (deref w r) as [[v|e|n m|fs c]|]; repeat split.
Qed.

(** * [or]: the first success *)

Lemma or_of_success alternatives : forall w r v,
  holds w r (Ok v) ->
  exists r' w',
    or_chain r alternatives w = (Normal r', w') /\ holds w' r' (Ok v) /\
    heap w' = heap w ++ repeat (Ok v) (length alternatives) /\
    journal w' = journal w.
Proof.
  induction alternatives as [|res rest IH]; intros w r v R; simpl.
  - exists r, w. now rewrite app_nil_r.
  - unfold bind, Result.or. rewrite (method_Ok _ _ _ _ _ R).
    unfold Ok_or, new.
    destruct (IH (alloc w (Ok v)) (VObject (length (heap w))) v (holds_new _ _))
      as (r' & w' & C & R' & Hh & Hj).
    exists r', w'. repeat split; try assumption.
    rewrite Hh. simpl. now rewrite <- app_assoc.
Qed.

Lemma last_of_cons {A} (l : list A) : forall x d d',
  last (x :: l) d = last (x :: l) d'.
Proof.
  induction l as [|y l IH]; intros x d d'; [reflexivity|].
  change (last (y :: l) d = last (y :: l) d'). apply IH.
Qed.

Lemma or_of_failures alternatives : forall w r e,
  holds w r (Err e) -> all_failures w alternatives ->
  or_chain r alternatives w = (Normal (last alternatives r), w).
Proof.
  induction alternatives as [|res rest IH]; intros w r e R F; simpl.
  - reflexivity.
  - unfold bind, Result.or. rewrite (method_Err _ _ _ _ _ R).
    unfold Err_or, ret. inversion F as [|? ? [e' R'] F']; subst.
    rewrite (IH w res e' R' F').
    destruct rest as [|a rest]; [reflexivity|].
    f_equal. f_equal. apply (last_of_cons rest a res r).
Qed.

(** A chain of [or] started on a success returns a success holding the same
    value, whatever the alternatives are (one copy is allocated per step);
    started on a failure it goes on from the first alternative as if the
    failure had not been there; and when the receiver and all alternatives
    are failures it returns the last alternative itself, allocating
    nothing. *)
Theorem or_keeps_first_success w r alternatives :
  (forall v, holds w r (Ok v) ->
     exists r' w',
       or_chain r alternatives w = (Normal r', w') /\ holds w' r' (Ok v) /\
       heap w' = heap w ++ repeat (Ok v) (length alternatives) /\
       journal w' = journal w) /\
  (forall e res, holds w r (Err e) ->
     or_chain r (res :: alternatives) w = or_chain res alternatives w) /\
  (forall e, holds w r (Err e) -> all_failures w alternatives ->
     or_chain r alternatives w = (Normal (last alternatives r), w)).
Proof.
  split; [|split].
  - intros v R. now apply or_of_success.
  - intros e res R. simpl. unfold bind, Result.or.
    now rewrite (method_Err _ _ _ _ _ R).
  - intros e R F. eapply or_of_failures; eassumption.
Qed.

Lemma or_keeps_first_success_witness :
  let w := alloc (alloc (alloc empty_world (Err VNull)) (Err (VBool true)))
                 (Ok (VString "5")) in
  or_chain (VObject 0) [VObject 1; VObject 2] w
    = or_chain (VObject 1) [VObject 2] w.
Proof.
  destruct (or_keeps_first_success
              (alloc (alloc (alloc empty_world (Err VNull)) (Err (VBool true)))
                     (Ok (VString "5")))
              (VObject 0) [VObject 2]) as (_ & H & _).
  apply (H VNull (VObject 1)). reflexivity.
Defined.

(** * Which functions are called *)

Lemma silent_ret {A} (a : A) : silent (ret a).
Proof. intros w. reflexivity. Qed.

Lemma silent_throw {A} x : silent (@throw A x).
Proof. intros w. reflexivity. Qed.

Lemma silent_new o : silent (new o).
Proof. intros w. reflexivity. Qed.

Lemma silent_bind {A B} (c : Comp A) (k : A -> Comp B) :
  silent c -> (forall a, silent (k a)) -> silent (bind c k).
Proof.
  intros C K w. unfold bind. specialize (C w).
  destruct (c w) as [[a|x] w1]; simpl in *; [|assumption].
  now rewrite K.
Qed.

Lemma silent_TypeError {A} message : silent (@throw_TypeError A message).
Proof. intros w. reflexivity. Qed.

Lemma silent_method {A} r (ifOk ifErr : Value -> Comp A) :
  (forall v, silent (ifOk v)) -> (forall e, silent (ifErr e)) ->
  silent (method r ifOk ifErr).
Proof.
  intros HO HE w. unfold method.
  destruct (deref w r) as [[v|e|n m|fs c]|]; try reflexivity.
  - apply HO.
  - apply HE.
Qed.

#[local] Hint Resolve silent_ret silent_throw silent_new silent_TypeError
  : result.

(** No method other than [unwrap] notes a call of its own: handed
    functions that leave the journal of the mocks alone, each of them
    leaves it alone, on every receiver. [unwrap] on a success notes
    nothing; on a failure it runs the conversion of the payload to a
    string, and notes what that conversion notes and nothing more. *)
Theorem methods_call_nothing_else :
  Forall calls_nothing_else other_methods /\
  (forall w r v,
     holds w r (Ok v) -> journal (snd (Result.unwrap r w)) = journal w) /\
  (forall w r e,
     holds w r (Err e) ->
     journal (snd (Result.unwrap r w)) = journal (snd (ToString e w))).
Proof.
  split; [|split].
  - unfold other_methods, transformers; simpl.
    repeat constructor; intros r d fn options Qf Qo Qe;
      apply silent_method; intros p;
      unfold Ok_isOk, Ok_isErr, Ok_unwrapOr, Ok_mapOr,
        Ok_unwrapOrElse, Ok_match, Ok_map, Ok_mapErr, Ok_andThen, Ok_or,
        Err_isOk, Err_isErr, Err_unwrapOr, Err_mapOr,
        Err_unwrapOrElse, Err_match, Err_map, Err_mapErr, Err_andThen, Err_or;
      repeat (apply silent_bind; [|intros]);
      auto with result;
      first [exact (Qf p) | exact (Qo p) | exact (Qe p)].
  - intros w r v R. unfold Result.unwrap. now rewrite (method_Ok _ _ _ _ _ R).
  - intros w r e R. unfold Result.unwrap. rewrite (method_Err _ _ _ _ _ R).
    unfold Err_unwrap, bind.
    destruct (ToString e w) as [[s|y] w1]; reflexivity.
Qed.

Lemma methods_call_nothing_else_witness :
  silent (Result.map (VObject 0) (fun x => ret x)).
Proof.
  destruct methods_call_nothing_else as (H & _).
  unfold other_methods, transformers in H. simpl in H.
  do 6 apply Forall_inv_tail in H.
  apply Forall_inv in H.
  apply (H (VObject 0) VNull (fun x => ret x)
           (Options.make (fun x => ret x) (fun x => ret x)));
    intros x w; reflexivity.
Defined.

(** On the variant it works on, a method calls the function it is handed
    exactly once, with the held payload: [map], [andThen] and [mapOr] on a
    success, [mapErr] and [unwrapOrElse] on a failure. *)
Theorem function_called_once name f w r :
  quiet f ->
  (forall v, holds w r (Ok v) ->
     journal (snd (Result.map r (mock name f) w))
       = journal w ++ [Invoked name v] /\
     journal (snd (Result.andThen r (mock name f) w))
       = journal w ++ [Invoked name v] /\
     forall d,
       journal (snd (Result.mapOr r d (mock name f) w))
         = journal w ++ [Invoked name v]) /\
  (forall e, holds w r (Err e) ->
     journal (snd (Result.mapErr r (mock name f) w))
       = journal w ++ [Invoked name e] /\
     journal (snd (Result.unwrapOrElse r (mock name f) w))
       = journal w ++ [Invoked name e]).
Proof.
  intros Q.
  assert (M : forall x, journal (snd (mock name f x w))
                        = journal w ++ [Invoked name x]).
  { intros x. unfold mock. now rewrite Q. }
  assert (B : forall x o, journal (snd ((u <- mock name f x ;; new (o u)) w))
                          = journal w ++ [Invoked name x]).
  { intros x o. unfold bind. specialize (M x).
    destruct (mock name f x w) as [[u|y] w1]; exact M. }
  unfold Result.map, Result.andThen, Result.mapOr, Result.mapErr,
    Result.unwrapOrElse.
  split; intros p R.
  - rewrite !(method_Ok _ _ _ _ _ R). repeat split; try apply M.
    + apply (B p Ok).
    + intros d. rewrite (method_Ok _ _ _ _ _ R). apply M.
  - rewrite !(method_Err _ _ _ _ _ R). split; [apply (B p Err) | apply M].
Qed.

Lemma function_called_once_witness :
  let w := alloc empty_world (Ok (VString "john")) in
  journal (snd (Result.map (VObject 0) (mock "fn" (fun x => ret x)) w))
    = [Invoked "fn" (VString "john")].
Proof.
  assert (Q : quiet (fun x => ret x)) by (intros x w; reflexivity).
  destruct (function_called_once "fn" (fun x => ret x)
              (alloc empty_world (Ok (VString "john"))) (VObject 0) Q)
    as (H & _).
  destruct (H (VString "john")) as (J & _).
  - reflexivity.
  - exact J.
Defined.

(** * More on the capture adapters *)

Lemma nth_is_Error l h name message :
  nth l h (Plain [] Inherited) = Error name message ->
  nth_error h l = Some (Error name message).
Proof.
  intros H. destruct (Nat.lt_ge_cases l (length h)) as [L|L].
  - rewrite (nth_error_nth' h (Plain [] Inherited) L). now rewrite H.
  - rewrite (nth_overflow h (Plain [] Inherited) L) in H. discriminate.
Qed.

Lemma instanceof_Error_decides x w :
  exists b,
    instanceof_Error x w = (Normal b, w) /\
    (b = true <-> exists name message, holds w x (Error name message)).
Proof.
  unfold instanceof_Error.
  destruct x as [| | | | |l];
    try (exists false; split; [reflexivity|];
         split; [discriminate | intros (n & m & H); contradiction]).
  simpl. destruct (nth l (heap w) (Plain [] Inherited)) as [v|e|n m|fs c] eqn:E.
  1, 2, 4: exists false; split; [reflexivity|];
    split; [discriminate|]; intros (n' & m' & H);
    apply (nth_error_nth _ _ (Plain [] Inherited)) in H; congruence.
  exists true. split; [reflexivity|]. split; [|reflexivity].
  intros _. exists n, m. now apply nth_is_Error.
Qed.

Lemma String_pure v w s w1 : String_ v w = (Normal s, w1) -> w1 = w.
Proof.
  destruct v as [| | | |[d|]|l];
    try apply ToString_pure; intros H; now inversion H.
Qed.

Lemma catch_clause_payload x w r w' :
  catch_clause x w = (Normal r, w') ->
  exists p name message, holds w' r (Err p) /\ holds w' p (Error name message).
Proof.
  unfold catch_clause. intros H.
  apply bind_normal in H as (b & w1 & I & H).
  apply bind_normal in H as (p & w2 & P & H).
  destruct (instanceof_Error_decides x w) as (b' & I' & [Hb _]).
  rewrite I' in I. inversion I; subst b' w1. clear I.
  apply new_normal in H as [-> ->].
  destruct b.
  - inversion P; subst p w2. destruct (Hb eq_refl) as (n & m & Hx).
    exists x, n, m. split; [apply holds_new|].
    eapply holds_later; [exact Hx | apply later_alloc].
  - apply bind_normal in P as (s & w3 & S & P).
    apply new_normal in P as [-> ->].
    exists (VObject (length (heap w3))), "Error", s.
    split; [apply holds_new|].
    eapply holds_later; [apply holds_new | apply later_alloc].
Qed.

(** The payload of a failure that a capture adapter returns is always an
    instance of [Error]: the thrown value itself when it is one, a new
    [Error] otherwise. *)
Theorem captured_failure_holds_an_Error :
  (forall fn w r w' p,
     tryFn fn w = (Normal r, w') -> holds w' r (Err p) ->
     exists name message, holds w' p (Error name message)) /\
  (forall fn w r w' p,
     tryAsync fn w = (Normal (Fulfilled r), w') -> holds w' r (Err p) ->
     exists name message, holds w' p (Error name message)).
Proof.
  assert (C : forall x w r w' p,
             catch_clause x w = (Normal r, w') -> holds w' r (Err p) ->
             exists name message, holds w' p (Error name message)).
  { intros x w r w' p H R.
    apply catch_clause_payload in H as (p' & n & m & R' & E).
    assert (Err p = Err p') as [= ->].
    { destruct r; simpl in *; try contradiction. congruence. }
    now exists n, m. }
  split.
  - intros fn w r w' p. unfold tryFn, try_catch.
    destruct (bind fn _ w) as [[a|x] w1] eqn:E; intros H R.
    + inversion H; subst.
      apply bind_normal in E as (t & w2 & _ & E).
      apply new_is_Ok in E. destruct (holds_not_both _ _ _ _ E R).
    + eapply C; eassumption.
  - intros fn w r w' p. unfold tryAsync, await, async.
    destruct (fn w) as [[[|t|x]|x] w1]; try discriminate;
      match goal with
      | |- context [match ?c with _ => _ end] =>
          destruct c as [[a|y] w2] eqn:E; intros H R; inversion H; subst
      end;
      unfold try_catch, bind, ret, throw in E; simpl in E.
    + apply new_is_Ok in E. destruct (holds_not_both _ _ _ _ E R).
    + eapply C; eassumption.
    + eapply C; eassumption.
Qed.

Lemma captured_failure_holds_an_Error_witness :
  exists name message,
    holds (snd (tryFn (throw (VString "boom")) empty_world)) (VObject 0)
          (Error name message).
Proof.
  destruct captured_failure_holds_an_Error as (H & _).
  apply (H (throw (VString "boom")) empty_world (VObject 1)
           (snd (tryFn (throw (VString "boom")) empty_world)) (VObject 0)).
  - reflexivity.
  - reflexivity.
Defined.

(** [tryFn] raises exactly when [fn] throws a value that is no instance of
    [Error] and whose conversion by [String] throws; what it raises is what
    the conversion threw. *)
Theorem tryFn_throws_iff fn w y w2 :
  tryFn fn w = (Throw y, w2) <->
  exists x w1,
    fn w = (Throw x, w1) /\
    (forall name message, ~ holds w1 x (Error name message)) /\
    String_ x w1 = (Throw y, w2).
Proof.
  unfold tryFn, try_catch, bind. split.
  - destruct (fn w) as [[t|x] w1]; [discriminate|].
    unfold catch_clause, bind.
    destruct (instanceof_Error_decides x w1) as (b & I & Hb). rewrite I.
    destruct b; [discriminate|].
    destruct (String_ x w1) as [[s|y'] w3] eqn:S; [discriminate|].
    intros H. inversion H; subst. exists x, w1.
    split; [reflexivity|]. split; [|exact S].
    intros n m Hx. assert (false = true) by (apply Hb; eauto). discriminate.
  - intros (x & w1 & F & N & S). rewrite F.
    unfold catch_clause, bind.
    destruct (instanceof_Error_decides x w1) as (b & I & Hb). rewrite I.
    destruct b.
    + destruct Hb as [Hb _]. destruct (Hb eq_refl) as (n & m & Hx).
      destruct (N n m Hx).
    + now rewrite S.
Qed.

Lemma tryFn_throws_iff_witness :
  let w := alloc empty_world (Plain [] (Raises VNull)) in
  tryFn (throw (VObject 0)) w = (Throw VNull, w).
Proof.
  apply (tryFn_throws_iff (throw (VObject 0))
           (alloc empty_world (Plain [] (Raises VNull))) VNull
           (alloc empty_world (Plain [] (Raises VNull)))).
  exists (VObject 0), (alloc empty_world (Plain [] (Raises VNull))).
  split; [reflexivity|]. split; [|reflexivity].
  intros name message H. discriminate H.
Defined.

(** When [fn] throws a primitive, [tryFn] returns a failure holding a new
    [Error] whose message is the text [String] gives for the primitive; for
    a thrown string the message is that string. *)
Theorem tryFn_of_thrown_primitive fn w x w1 :
  fn w = (Throw x, w1) -> (forall l, x <> VObject l) ->
  exists s,
    String_ x w1 = (Normal s, w1) /\
    (forall s', x = VString s' -> s = s') /\
    tryFn fn w
      = (Normal (VObject (length (heap (alloc w1 (Error "Error" s))))),
         alloc (alloc w1 (Error "Error" s)) (Err (VObject (length (heap w1))))).
Proof.
  intros F P. unfold tryFn, try_catch, bind. rewrite F.
  unfold catch_clause, bind, instanceof_Error.
  destruct x as [| |[|]|s0|[d|]|l]; try (destruct (P l eq_refl)); simpl;
    eexists; (split; [reflexivity|]);
    (split; [intros s' E; now inversion E | reflexivity]).
Qed.

Lemma tryFn_of_thrown_primitive_witness :
  exists s,
    String_ (VSymbol (Some "x")) empty_world = (Normal s, empty_world) /\
    tryFn (throw (VSymbol (Some "x"))) empty_world
      = (Normal (VObject 1),
         alloc (alloc empty_world (Error "Error" s)) (Err (VObject 0))).
Proof.
  destruct (tryFn_of_thrown_primitive (throw (VSymbol (Some "x"))) empty_world
              (VSymbol (Some "x")) empty_world) as (s & S & _ & T).
  - reflexivity.
  - intros l H. discriminate H.
  - exists s. split; [exact S | exact T].
Defined.

(** [tryAsync] of an [async] function whose body returns no promise (the
    bodies of the model: no [Value] is a promise or a thenable, which an
    [async] function would adopt) settles as [tryFn] of that body
    completes: the promise is fulfilled with the Result [tryFn] returns,
    and rejected with what [tryFn] raises. *)
Theorem tryAsync_of_async body w :
  tryAsync (async body) w = async (tryFn body) w.
Proof.
  unfold tryAsync, await, async, tryFn, try_catch, bind.
  destruct (body w) as [[v|x] w1]; reflexivity.
Qed.

Lemma tryFn_captures_witness :
  tryFn (readFile "nonexistent.txt") empty_world
    = new (Err (VObject 0)) (alloc empty_world (Error "Error" "File not found")).
Proof.
  destruct (tryFn_captures (readFile "nonexistent.txt") empty_world)
    as (_ & H & _).
  apply (H (VObject 0) (alloc empty_world (Error "Error" "File not found"))
           "Error" "File not found").
  - reflexivity.
  - reflexivity.
Defined.

Lemma tryAsync_captures_witness :
  tryAsync (throw (VString "HTTP error: 404")) empty_world
    = async (catch_clause (VString "HTTP error: 404")) empty_world.
Proof.
  destruct (tryAsync_captures (throw (VString "HTTP error: 404")) empty_world)
    as (_ & _ & H & _).
  apply H. right. reflexivity.
Defined.

(** * Through exceptions and back *)

Lemma tryFn_returned fn w t w1 :
  fn w = (Normal t, w1) -> tryFn fn w = new (Ok t) w1.
Proof. intros F. unfold tryFn, try_catch, bind. now rewrite F. Qed.

Lemma tryFn_threw_Error fn w x w1 name message :
  fn w = (Throw x, w1) -> holds w1 x (Error name message) ->
  tryFn fn w = new (Err x) w1.
Proof.
  intros F H. unfold tryFn, try_catch, bind. rewrite F.
  unfold catch_clause, bind, instanceof_Error.
  now rewrite (holds_deref _ _ _ H).
Qed.



(** [tryFn(() => r.unwrap())]: a success comes back as a copy; a failure
    whose payload converts to the string [s] comes back as a failure that
    holds the error of [unwrap], with ["Tried to unwrap an Err: "] and [s]
    for message, instead of the original payload. *)
Theorem unwrap_inside_tryFn w r :
  (forall v, holds w r (Ok v) ->
     tryFn (Result.unwrap r) w = new (Ok v) w) /\
  (forall e s w1,
     holds w r (Err e) -> ToString e w = (Normal s, w1) ->
     let raised := Error "Error" ("Tried to unwrap an Err: " ++ s)%string in
     tryFn (Result.unwrap r) w
       = new (Err (VObject (length (heap w)))) (alloc w raised) /\
     holds (alloc w raised) (VObject (length (heap w))) raised).
Proof.
  split.
  - intros v R. apply tryFn_returned. unfold Result.unwrap.
    now rewrite (method_Ok _ _ _ _ _ R).
  - intros e s w1 R S raised. split; [|apply holds_new].
    apply (tryFn_threw_Error _ _ _ _ "Error" ("Tried to unwrap an Err: " ++ s)%string).
    + unfold Result.unwrap. rewrite (method_Err _ _ _ _ _ R).
      apply (Err_unwrap_converted _ _ _ _ S).
    + apply holds_new.
Qed.

Lemma unwrap_inside_tryFn_witness :
  let w := alloc empty_world (Err (VString "Division by zero")) in
  tryFn (Result.unwrap (VObject 0)) w
    = new (Err (VObject 1))
          (alloc w (Error "Error" "Tried to unwrap an Err: Division by zero")).
Proof.
  destruct (unwrap_inside_tryFn
              (alloc empty_world (Err (VString "Division by zero")))
              (VObject 0)) as (_ & H).
  destruct (H (VString "Division by zero") "Division by zero"
              (alloc empty_world (Err (VString "Division by zero"))))
    as (E & _).
  - reflexivity.
  - reflexivity.
  - exact E.
Defined.

(** * The callers of the test suite *)

Lemma andThen_fresh_Ok v f w :
  Result.andThen (VObject (length (heap w))) f (alloc w (Ok v))
    = f v (alloc w (Ok v)).
Proof. unfold Result.andThen. now rewrite (method_Ok _ _ _ _ _ (holds_new _ _)). Qed.

Lemma andThen_fresh_Err e f w :
  Result.andThen (VObject (length (heap w))) f (alloc w (Err e))
    = new (Err e) (alloc w (Err e)).
Proof. unfold Result.andThen. now rewrite (method_Err _ _ _ _ _ (holds_new _ _)). Qed.

Lemma map_fresh_Ok v f w :
  Result.map (VObject (length (heap w))) f (alloc w (Ok v))
    = (u <- f v ;; new (Ok u)) (alloc w (Ok v)).
Proof. unfold Result.map. now rewrite (method_Ok _ _ _ _ _ (holds_new _ _)). Qed.

Lemma map_fresh_Err e f w :
  Result.map (VObject (length (heap w))) f (alloc w (Err e))
    = new (Err e) (alloc w (Err e)).
Proof. unfold Result.map. now rewrite (method_Err _ _ _ _ _ (holds_new _ _)). Qed.

Lemma validateUsername_run username w :
  if (String.length username <? 3)%nat then
    exists message,
      validateUsername username w = validation_error "username" message w
  else validateUsername username w = ok (VString username) w.
Proof.
  unfold validateUsername. destruct username as [|c u]; simpl.
  - now exists "Username is required".
  - destruct (String.length u) as [|[|n]]; simpl; eauto.
Qed.

Lemma validateEmail_run email w :
  if includes_at email then validateEmail email w = ok (VString email) w
  else exists message,
         validateEmail email w = validation_error "email" message w.
Proof.
  unfold validateEmail, includes_at. destruct email as [|c u].
  - simpl. now exists "Email is required".
  - change ((String c u =? "")%string) with false. cbv iota.
    destruct (index 0 "@" (String c u)); eauto.
Qed.

(** [validateUser] of the "Validation" tests, on a user name and an e-mail
    of ASCII characters, returns a success, holding the record of the two fields,
    exactly when the user name has three characters or more and the e-mail
    contains an [@]. A user name that is
    too short decides alone: the failure holds the error of the field
    ["username"] and, the e-mail not being looked at, three objects are
    allocated whatever the e-mail is. Otherwise the failure holds the error
    of the field ["email"]. *)
Theorem validateUser_decides username email w :
  ascii_only username = true -> ascii_only email = true ->
  exists r w',
    validateUser username email w = (Normal r, w') /\
    if (String.length username <? 3)%nat then
      exists e message,
        holds w' r (Err e) /\
        holds w' e (Plain [("field", VString "username");
                           ("message", VString message)] Inherited) /\
        length (heap w') = 3 + length (heap w)
    else if includes_at email then
      exists u,
        holds w' r (Ok u) /\
        holds w' u (Plain [("username", VString username);
                           ("email", VString email)] Inherited)
    else
      exists e message,
        holds w' r (Err e) /\
        holds w' e (Plain [("field", VString "email");
                           ("message", VString message)] Inherited).
Proof.
  intros _ _. unfold validateUser, bind at 1.
  pose proof (validateUsername_run username w) as U.
  destruct (String.length username <? 3)%nat.
  - destruct U as (message & ->).
    unfold validation_error, bind, err, new at 1 2. rewrite andThen_fresh_Err.
    eexists; eexists. split; [reflexivity|].
    exists (VObject (length (heap w))), message. split; [apply holds_new|].
    split.
    + eapply holds_later; [apply holds_new|].
      eapply later_trans; apply later_alloc.
    + simpl. rewrite !length_app. simpl. lia.
  - rewrite U. unfold ok, new at 1. rewrite andThen_fresh_Ok.
    unfold bind at 1.
    pose proof (validateEmail_run email (alloc w (Ok (VString username)))) as E.
    destruct (includes_at email).
    + rewrite E. unfold ok, new at 1. rewrite map_fresh_Ok.
      unfold bind, new.
      eexists; eexists. split; [reflexivity|].
      eexists. split; [apply holds_new|].
      eapply holds_later; [apply holds_new | apply later_alloc].
    + destruct E as (message & ->).
      unfold validation_error, bind, err, new at 1 2. rewrite map_fresh_Err.
      eexists; eexists. split; [reflexivity|].
      eexists; exists message. split; [apply holds_new|].
      eapply holds_later; [apply holds_new|].
      eapply later_trans; apply later_alloc.
Qed.

Lemma validateUser_decides_witness :
  exists r w',
    validateUser "jo" "a@b.com" empty_world = (Normal r, w') /\
    exists e message,
      holds w' r (Err e) /\
      holds w' e (Plain [("field", VString "username");
                         ("message", VString message)] Inherited) /\
      length (heap w') = 3.
Proof.
  destruct (validateUser_decides "jo" "a@b.com" empty_world eq_refl eq_refl)
    as (r & w' & E & H).
  exists r, w'. split; [exact E|]. exact H.
Defined.

(** [processFile] of the "File operations" tests returns a success exactly
    for the path ["exists.txt"]: the contents are read, upper-cased and
    written, one Result per step. For any other path the failure of the
    read, holding the error "File not found", is what comes out: nothing is
    upper-cased or written, the two later steps only copy the failure. *)
Theorem processFile_decides toUpperCase path w :
  exists r w',
    processFile toUpperCase path w = (Normal r, w') /\
    if (path =? "exists.txt")%string then
      holds w' r (Ok (VBool true)) /\
      heap w' = heap w ++ [Ok (VString "file contents");
                           Ok (VString (toUpperCase "file contents"));
                           Ok (VBool true)]
    else
      let x := VObject (length (heap w)) in
      holds w' r (Err x) /\
      holds w' x (Error "Error" "File not found") /\
      heap w' = heap w ++ [Error "Error" "File not found"; Err x; Err x; Err x].
Proof.
  unfold processFile, readFile, bind at 1.
  destruct (path =? "exists.txt")%string.
  - rewrite (tryFn_returned (ret (VString "file contents")) w
               (VString "file contents") w eq_refl).
    unfold new at 1. unfold bind at 1. rewrite map_fresh_Ok.
    unfold bind at 1, upper, ret, new at 1. rewrite andThen_fresh_Ok.
    rewrite (tryFn_returned (writeFile "output.txt" _) _ (VBool true) _ eq_refl).
    eexists; eexists. split; [reflexivity|]. split; [apply holds_new|].
    simpl. now rewrite <- !app_assoc.
  - rewrite (tryFn_threw_Error (x <- new (Error "Error" "File not found") ;; throw x)
               w (VObject (length (heap w)))
               (alloc w (Error "Error" "File not found"))
               "Error" "File not found" eq_refl (holds_new _ _)).
    unfold new at 1. unfold bind at 1. rewrite map_fresh_Err.
    unfold new at 1. rewrite andThen_fresh_Err.
    eexists; eexists. split; [reflexivity|]. cbv zeta. split; [apply holds_new|].
    split.
    + eapply holds_later; [apply holds_new|].
      eapply later_trans; [apply later_alloc|].
      eapply later_trans; apply later_alloc.
    + simpl. now rewrite <- !app_assoc.
Qed.

(** * What the capture adapters leave alone *)

Section Keeps.

Variable R : World -> World -> Prop.
Hypothesis R_refl : forall w, R w w.
Hypothesis R_trans : forall w1 w2 w3, R w1 w2 -> R w2 w3 -> R w1 w3.
Hypothesis R_alloc : forall w o, R w (alloc w o).

Lemma String_by_engine x w :
  converts_by_engine w x -> R w (snd (String_ x w)).
Proof.
  intros E. destruct x as [| |[|]|s|[d|]|l]; simpl; try apply R_refl.
  destruct (Nat.lt_ge_cases l (length (heap w))) as [L|L].
  - pose proof (nth_error_nth' (heap w) (Plain [] Inherited) L) as H.
    destruct (nth l (heap w) (Plain [] Inherited)) as [v|e|n m|fs c];
      simpl; try apply R_refl.
    destruct (E fs c H) as [-> | ->].
    + destruct (has_field "toString" fs); [apply R_alloc | apply R_refl].
    + apply R_alloc.
  - rewrite (nth_overflow (heap w) (Plain [] Inherited) L). apply R_refl.
Qed.

Lemma catch_clause_by_engine x w :
  converts_by_engine w x -> R w (snd (catch_clause x w)).
Proof.
  intros E. unfold catch_clause, bind.
  destruct (instanceof_Error_decides x w) as (b & -> & _).
  destruct b; [apply R_alloc|].
  pose proof (String_by_engine x w E) as S.
  destruct (String_ x w) as [[s|y] w1]; simpl in *; [|exact S].
  eapply R_trans; [exact S|].
  eapply R_trans; apply R_alloc.
Qed.

Lemma keeps_tryFn fn : throws_plainly fn -> keeps R fn -> keeps R (tryFn fn).
Proof.
  intros P F w. unfold tryFn, try_catch, bind.
  specialize (F w). specialize (P w).
  destruct (fn w) as [[t|x] w1]; simpl in *.
  - eapply R_trans; [exact F | apply R_alloc].
  - eapply R_trans; [exact F|]. apply catch_clause_by_engine, (P x w1 eq_refl).
Qed.

Lemma keeps_tryAsync fn :
  rejects_plainly fn -> keeps R fn -> keeps R (tryAsync fn).
Proof.
  intros P F w. unfold tryAsync, await, async, try_catch, bind, ret, throw.
  specialize (F w). specialize (P w).
  assert (C : forall x w1, converts_by_engine w1 x ->
            R w1 (snd (let (c, w') := catch_clause x w1 in
                       match c with
                       | Normal v => (Normal (Fulfilled v), w')
                       | Throw y => (Normal (Rejected y), w')
                       end))).
  { intros x w1 E. pose proof (catch_clause_by_engine x w1 E) as H.
    destruct (catch_clause x w1) as [[v|y] w2]; exact H. }
  destruct (fn w) as [[[|v|x]|x] w1]; simpl in *.
  - exact F.
  - eapply R_trans; [exact F | apply R_alloc].
  - eapply R_trans; [exact F|]. apply C, (P x w1). now right.
  - eapply R_trans; [exact F|]. apply C, (P x w1). now left.
Qed.

End Keeps.

(** The capture adapters overwrite no object and call nothing but [fn],
    as long as what [fn] throws (or rejects with) has no conversion method
    of its own, which the [catch] clause would run: when [fn] allocates at
    most, so does the adapter, and when [fn] notes no call in the journal
    of the mocks, neither does the adapter. *)
Theorem adapters_leave_the_rest_alone :
  (forall fn, throws_plainly fn -> allocating fn -> allocating (tryFn fn)) /\
  (forall fn, throws_plainly fn -> silent fn -> silent (tryFn fn)) /\
  (forall fn, rejects_plainly fn -> allocating fn -> allocating (tryAsync fn)) /\
  (forall fn, rejects_plainly fn -> silent fn -> silent (tryAsync fn)).
Proof.
  assert (J : forall w1 w2 w3,
             journal w2 = journal w1 -> journal w3 = journal w2 ->
             journal w3 = journal w1) by (intros; congruence).
  repeat split; intros fn P F.
  - apply (keeps_tryFn later later_refl later_trans later_alloc fn P F).
  - apply (keeps_tryFn (fun w w' => journal w' = journal w)
             (fun w => eq_refl) J (fun w o => eq_refl) fn P F).
  - apply (keeps_tryAsync later later_refl later_trans later_alloc fn P F).
  - apply (keeps_tryAsync (fun w w' => journal w' = journal w)
             (fun w => eq_refl) J (fun w o => eq_refl) fn P F).
Qed.

Lemma adapters_leave_the_rest_alone_witness :
  allocating (tryFn (readFile "nonexistent.txt")).
Proof.
  destruct adapters_leave_the_rest_alone as (H & _).
  apply H.
  - intros w x w1 F fields conv P. unfold readFile in F. simpl in F.
    inversion F; subst. simpl in P.
    rewrite nth_error_app2 in P by lia. rewrite Nat.sub_diag in P.
    discriminate P.
  - intros w. unfold readFile. simpl.
    exists [Error "Error" "File not found"]. reflexivity.
Defined.
